(** * Stretch Reminder: a shallow embedding of [stretch_reminder.py]

    The program is a tray utility around one repeating one-shot timer.
    This development embeds the parts of [stretch_reminder.py] that the
    specification talks about:

    - [Py]: the Python values that reach the program (JSON documents, the
      text of the settings entry), exceptions, and the built-in [float];
    - [Settings]: [validate_interval], [load_config] and the in-place
      rewrite of [config.json];
    - [AutoStart]: [set_auto_start] / [get_auto_start_status] over the
      per-user Run key;
    - [Scheduler]: [schedule_notification], [notify_and_reschedule], the
      timer part of [apply_settings] and of [cleanup_and_exit], as a step
      function over timers and threads;
    - [Countdown]: the label computed by [update_countdown];
    - [Dialog]: [create_settings_window] and [on_closing];
    - [Tray]: the tray callbacks and the dispatch of [process_commands];
    - [Startup]: the first four steps of [main];
    - [Icon]: [get_icon_abs_path];
    - [App]: the handler [apply_settings] as a whole, over the config
      file, the registry and the scheduler;
    - [Loop]: executions of the dialog and of the command queue.

    Floats are modelled by the rationals they denote (plus the two
    infinities and nan); comparisons are exact, and the rounding of float
    arithmetic is not modelled. *)

From Stdlib Require Import ZArith QArith Qround Qminmax String Ascii Bool Lia.
From stdpp Require Import base option list strings gmap.

Set Warnings "-register-all".

Close Scope Q_scope.

(** How many elements of a list satisfy a test. *)
Fixpoint count {A : Type} (p : A → bool) (l : list A) : nat :=
  match l with
  | [] => 0
  | x :: l' => (if p x then 1 else 0) + count p l'
  end.

(** ** Python values and the built-in [float] *)

Module Py.

(** The exception classes the modelled code raises or catches.
    [JSONDecodeError], [UnicodeDecodeError] and [UnicodeEncodeError] are
    subclasses of [ValueError]; [OverflowError], [AttributeError],
    [RecursionError] and [NameError] are not. [FileNotFoundError] is a
    subclass of [OSError]; the constructor [OSError] stands for the others
    ([PermissionError] and the like). *)
Inductive exn :=
| ValueError
| TypeError
| OverflowError
| JSONDecodeError
| UnicodeDecodeError
| UnicodeEncodeError
| RecursionError
| AttributeError
| KeyError
| NameError
| FileNotFoundError
| OSError.

Definition is_ValueError (e : exn) : bool :=
  match e with
  | ValueError | JSONDecodeError | UnicodeDecodeError | UnicodeEncodeError => true
  | _ => false
  end.

Definition is_TypeError (e : exn) : bool :=
  match e with
  | TypeError => true
  | _ => false
  end.

(** A call either returns or raises. *)
Inductive result (A : Type) :=
| Ret (a : A)
| Raise (e : exn).
Arguments Ret {A} a.
Arguments Raise {A} e.

(** A Python float: a finite double (the rational it denotes), an
    infinity, or nan. *)
Inductive pyfloat :=
| Fin (q : Q)
| PosInf
| NegInf
| NaN.

(** What [json.load] can produce, and what a Tk entry holds ([PStr]). A
    dict keeps its insertion order, as Python's does. *)
Inductive pyval :=
| PNone
| PBool (b : bool)
| PInt (z : Z)
| PFloat (f : pyfloat)
| PStr (s : string)
| PList (l : list pyval)
| PDict (d : list (string * pyval)).

(** The one-character string holding a double quote. *)
Definition dq : string := String "034"%char EmptyString.

Definition Qlt_bool (x y : Q) : bool := negb (Qle_bool y x).

(** [f <= c] and [f > c] for a float [f] and a finite constant [c]: every
    comparison with nan is False. *)
Definition float_le (f : pyfloat) (c : Q) : bool :=
  match f with
  | Fin q => Qle_bool q c
  | PosInf => false
  | NegInf => true
  | NaN => false
  end.

Definition float_gt (f : pyfloat) (c : Q) : bool :=
  match f with
  | Fin q => Qlt_bool c q
  | PosInf => true
  | NegInf => false
  | NaN => false
  end.

(** [max(c, f)]: Python's [max] keeps its first argument unless a later
    one compares greater. *)
Definition py_max (c : Q) (f : pyfloat) : pyfloat :=
  if float_gt f c then f else Fin c.

(** [float(n)] for an int: exact up to 53 bits, otherwise rounded to the
    nearest double (ties to even); [None] is [OverflowError], raised when
    the magnitude rounds to [2^1024] or more. *)
Definition float_of_int (z : Z) : option Q :=
  let a := Z.abs z in
  let n := (if (a =? 0)%Z then 0 else Z.log2 a + 1)%Z in
  if (n <=? 53)%Z then Some (inject_Z z)
  else
    let sh := (n - 53)%Z in
    let q := Z.shiftr a sh in
    let r := Z.land a (Z.ones sh) in
    let half := Z.shiftl 1 (sh - 1) in
    let q' := (if (half <? r)%Z || ((r =? half)%Z && Z.odd q) then q + 1 else q)%Z in
    let m := Z.shiftl q' sh in
    if (2 ^ 1024 <=? m)%Z then None else Some (inject_Z (Z.sgn z * m)).

Section Float.

(** [float(s)] for a string is the interpreter's parser; [None] is its
    [ValueError]. *)
Variable str_to_float : string → option pyfloat.

Definition py_float (v : pyval) : result pyfloat :=
  match v with
  | PNone => Raise TypeError
  | PBool b => Ret (Fin (if b then 1 else 0)%Q)
  | PInt z =>
      match float_of_int z with
      | Some q => Ret (Fin q)
      | None => Raise OverflowError
      end
  | PFloat f => Ret f
  | PStr s =>
      match str_to_float s with
      | Some f => Ret f
      | None => Raise ValueError
      end
  | PList _ => Raise TypeError
  | PDict _ => Raise TypeError
  end.

End Float.

(** [d.get(k)], [d.get(k, dflt)] and [d[k] = v] on an insertion-ordered
    dict: assignment to a present key keeps its position, a new key goes
    last. *)
Fixpoint dict_lookup (d : list (string * pyval)) (k : string) : option pyval :=
  match d with
  | [] => None
  | (k', v) :: d' => if String.eqb k' k then Some v else dict_lookup d' k
  end.

Definition dict_get (d : list (string * pyval)) (k : string) (dflt : pyval) : pyval :=
  match dict_lookup d k with
  | Some v => v
  | None => dflt
  end.

Fixpoint dict_set (d : list (string * pyval)) (k : string) (v : pyval)
  : list (string * pyval) :=
  match d with
  | [] => [(k, v)]
  | (k', v') :: d' =>
      if String.eqb k' k then (k', v) :: d' else (k', v') :: dict_set d' k v
  end.

End Py.

(** ** The settings store *)

Module Settings.
Import Py.

(** The literal [0.1] and the 24-hour bound. *)
Definition tenth : Q := (1 # 10)%Q.
Definition day_minutes : Q := 1440%Q.

(** The text made of the chunks written. *)
Definition join (chunks : list string) : string :=
  fold_right String.append EmptyString chunks.

(** The size in bytes of the buffer of a file object opened by
    [open(path, "w")]: [io.DEFAULT_BUFFER_SIZE]. A text is the string of
    its UTF-8 bytes. *)
Definition buffer_size : nat := 8 * 1024.

Section Store.

Variable str_to_float : string → option pyfloat.

(** [validate_interval]: the two explicit [raise ValueError] and the
    [ValueError]/[TypeError] of [float] are all caught by the
    [except (ValueError, TypeError)] clause and raised again as
    [ValueError]; any other exception of [float] propagates. *)
Definition validate_interval (interval_min : pyval) : result pyfloat :=
  match py_float str_to_float interval_min with
  | Raise e =>
      if is_ValueError e || is_TypeError e then Raise ValueError else Raise e
  | Ret f =>
      if float_le f 0 then Raise ValueError
      else if float_gt f day_minutes then Raise ValueError
      else Ret (py_max tenth f)
  end.

(** [json.load] and [json.dump] are the library's. [json_loads text] is
    the outcome of opening a file that holds [text] for reading and of
    [json.load] on it: the document, or the exception raised
    ([JSONDecodeError] for a text that is not JSON, [UnicodeDecodeError]
    for bytes that are not UTF-8, [RecursionError] for a nesting beyond
    the interpreter's limit, [OSError] for a file that cannot be read). The
    encoder yields the chunks that [json.dump] hands to [f.write] one
    after the other; [encodes] says whether the UTF-8 encoder of the file
    accepts a chunk (with [ensure_ascii=False] a lone surrogate, which a
    JSON escape can put into a string, reaches the encoder and is
    refused). *)
Variable json_loads : string → result pyval.
Variable json_chunks : pyval → list string.
Variable encodes : string → bool.

(** The [default] dict of [load_config]. *)
Definition default_config : list (string * pyval) :=
  [ ("interval_min", PInt 60);
    ("icon_path", PStr "icon.ico");
    ("log_file", PStr "stretch_reminder.log");
    ("auto_start", PBool false);
    ("minimize_to_tray", PBool true) ].

(** [config.json] is absent ([None]) or holds a text. The program writes
    it with [open(path, "w")] followed by [json.dump]: the open creates or
    truncates the file; [f.write] puts a chunk into the buffer of the file
    object (the text layer and the binary layer under it are taken as
    one buffer), which goes to the disk when it holds more than
    [buffer_size] bytes; leaving the [with] block closes the file, which
    flushes the buffer. No other file is written and nothing is
    renamed. *)
Inductive file_op :=
| OpenTruncate
| WriteChunk (s : string)
| CloseFile.

Record file_object := {
  disk : option string;
  pending : string
}.

Definition flush (fo : file_object) : file_object :=
  {| disk := Some (String.append (default EmptyString (disk fo)) (pending fo));
     pending := EmptyString |}.

Definition exec_op (fo : file_object) (o : file_op) : file_object :=
  match o with
  | OpenTruncate => {| disk := Some EmptyString; pending := EmptyString |}
  | WriteChunk s =>
      let fo' := {| disk := disk fo; pending := String.append (pending fo) s |} in
      if (String.length (pending fo') <=? buffer_size)%nat then fo' else flush fo'
  | CloseFile => flush fo
  end.

Definition run_ops (ops : list file_op) (fo : file_object) : file_object :=
  fold_left exec_op ops fo.

Definition dump_ops (chunks : list string) : list file_op :=
  OpenTruncate :: map WriteChunk chunks ++ [CloseFile].

(** Before the open: the file as it is, and no file object yet. *)
Definition closed (f : option string) : file_object :=
  {| disk := f; pending := EmptyString |}.

(** The write of the chunks interrupted after its first [k] file
    operations: what the disk holds then. *)
Definition crash_after (k : nat) (chunks : list string) (f : option string)
  : option string :=
  disk (run_ops (take k (dump_ops chunks)) (closed f)).

(** [with open(path, "w") as f: json.dump(doc, f, ...)], run to the end
    without an error. *)
Definition write_json (doc : pyval) (f : option string) : option string :=
  disk (run_ops (dump_ops (json_chunks doc)) (closed f)).

(** The chunks written before the first one that the encoder refuses,
    and whether all were accepted. *)
Fixpoint encoded (chunks : list string) : list string * bool :=
  match chunks with
  | [] => ([], true)
  | c :: chunks' =>
      if encodes c then (c :: fst (encoded chunks'), snd (encoded chunks'))
      else ([], false)
  end.

(** The same [with] block with its two failures: the open raises
    ([open_ok] is false; the file is as it was), or [f.write] raises
    [UnicodeEncodeError] on a chunk (the [with] block then closes the
    file, which holds the chunks written before). *)
Definition save_json (open_ok : bool) (doc : pyval) (f : option string)
  : result unit * option string :=
  if open_ok then
    let written := encoded (json_chunks doc) in
    (if snd written then Ret tt else Raise UnicodeEncodeError,
     disk (run_ops (dump_ops (fst written)) (closed f)))
  else (Raise OSError, f).

(** The block with the process killed after [k] of its file operations. *)
Definition save_json_crash (k : nat) (doc : pyval) (f : option string)
  : result unit * option string :=
  (Ret tt, crash_after k (fst (encoded (json_chunks doc))) f).

(** The five assignments of [load_config] on the decoded dict. *)
Definition fill_defaults (config : list (string * pyval)) (interval : pyfloat)
  : list (string * pyval) :=
  let config := dict_set config "interval_min" (PFloat interval) in
  let config :=
    dict_set config "icon_path" (dict_get config "icon_path" (PStr "icon.ico")) in
  let config :=
    dict_set config "log_file"
      (dict_get config "log_file" (PStr "stretch_reminder.log")) in
  let config :=
    dict_set config "auto_start" (dict_get config "auto_start" (PBool false)) in
  dict_set config "minimize_to_tray"
    (dict_get config "minimize_to_tray" (PBool true)).

(** [load_config]. [create_ok] says whether writing the new file works
    (when it does not, the exception is caught and the defaults returned).
    The [except (json.JSONDecodeError, ValueError)] clause catches the
    decoder's [JSONDecodeError] and [UnicodeDecodeError] and the
    [ValueError] of [validate_interval]; it does not catch the decoder's
    [RecursionError], the [AttributeError] of [config.get] on a document
    that is not a dict, or the [OverflowError] of [validate_interval]. *)
Definition load_config (create_ok : bool) (f : option string)
  : result (list (string * pyval)) * option string :=
  match f with
  | None =>
      if create_ok then (Ret default_config, write_json (PDict default_config) f)
      else (Ret default_config, f)
  | Some text =>
      match json_loads text with
      | Raise e =>
          if is_ValueError e then (Ret default_config, f) else (Raise e, f)
      | Ret (PDict config) =>
          match validate_interval (dict_get config "interval_min" (PInt 60)) with
          | Ret interval => (Ret (fill_defaults config interval), f)
          | Raise e =>
              if is_ValueError e then (Ret default_config, f) else (Raise e, f)
          end
      | Ret _ => (Raise AttributeError, f)
      end
  end.

(** The first half of [apply_settings]: validate the entry, reload the
    config, set the two fields and rewrite the file in place ([write] is
    that last write). Returns the accepted interval, or the exception that
    ends the handler. *)
Definition apply_save_with
    (write : pyval → option string → result unit * option string)
    (entry : string) (auto_start : bool) (create_ok : bool)
    (f : option string) : result pyfloat * option string :=
  match validate_interval (PStr entry) with
  | Raise e => (Raise e, f)
  | Ret new_min =>
      match load_config create_ok f with
      | (Raise e, f1) => (Raise e, f1)
      | (Ret cfg, f1) =>
          let cfg := dict_set cfg "interval_min" (PFloat new_min) in
          let cfg := dict_set cfg "auto_start" (PBool auto_start) in
          match write (PDict cfg) f1 with
          | (Ret _, f2) => (Ret new_min, f2)
          | (Raise e, f2) => (Raise e, f2)
          end
      end
  end.

Definition apply_save (open_ok : bool) := apply_save_with (save_json open_ok).

(** The same with the process killed during the write, after [k] file
    operations. *)
Definition apply_save_crash (k : nat) := apply_save_with (save_json_crash k).

End Store.

(** [cfg["interval_min"] * 60] and [new_min * 60]: the interval in
    seconds. The value is the int [60] of the defaults or a finite float
    ([validate_interval] returns nothing else). *)
Definition interval_seconds (minutes : pyval) : option Q :=
  match minutes with
  | PInt z => Some (inject_Z z * 60)%Q
  | PFloat (Fin q) => Some (q * 60)%Q
  | _ => None
  end.

(** Sample files, and their documents as [json.loads] reads them:
    an interval out of range next to a valid log file name, a JSON array,
    and the empty object. *)
Definition sample_text_out_of_range : string :=
  String.concat EmptyString
    ["{"; dq; "interval_min"; dq; ": 5000, "; dq; "log_file"; dq; ": ";
     dq; "my.log"; dq; "}"].

Definition sample_doc_out_of_range : pyval :=
  PDict [("interval_min", PInt 5000); ("log_file", PStr "my.log")].

(** The text of the entry of the settings dialog, for a parser that
    knows the literal [5]. *)
Definition sample_str_to_float (s : string) : option pyfloat :=
  if String.eqb s "5" then Some (Fin 5) else None.


(** A stand-in for the encoder: three chunks, whatever the document. *)
Definition sample_chunks (doc : pyval) : list string := ["{"; "..."; "}"].

Definition sample_loads (text : string) : result pyval :=
  if String.eqb text sample_text_out_of_range then Ret sample_doc_out_of_range
  else if String.eqb text "[]" then Ret (PList [])
  else if String.eqb text "{}" then Ret (PDict [])
  else Raise JSONDecodeError.

End Settings.

(** ** The auto-start registrar *)

Module AutoStart.
Import Py.

Definition APP_NAME : string := "Stretch Reminder".
Definition VERSION : string := "1.0.0".

(** The part of the registry the program touches: the values of the
    per-user [Run] key ([None] when the key cannot be opened) and the
    values of its [StretchReminderInfo] subkey ([None] when absent). *)
Record registry := {
  run_key : option (gmap string string);
  info_key : option (gmap string string)
}.

(** [get_auto_start_status]: the registration is the value named
    [APP_NAME]; every failure reads as "not registered". *)
Definition get_auto_start_status (reg : registry) : bool :=
  match run_key reg with
  | Some values => bool_decide (is_Some (values !! APP_NAME))
  | None => false
  end.

(** The three values written under the info key. *)
Definition info_values (icon_path : string) (old : option (gmap string string))
  : gmap string string :=
  <["Description" := "스트레칭 알림 프로그램"]>
    (<["Version" := VERSION]>
      (<["IconPath" := icon_path]> (default ∅ old))).

(** [exe_path] with the quotes added when it holds a space. *)
Definition quoted (exe_path : string) : string :=
  if bool_decide (" "%char ∈ list_ascii_of_string exe_path)
  then String.append dq (String.append exe_path dq)
  else exe_path.

(** [set_auto_start]. [icon] is the outcome of [get_icon_abs_path] and
    [info_ok] says whether the optional info key can be written. Every
    exception ends in the outer [except Exception]: the function returns
    [False] and the registry is as it was. Disabling deletes the value and
    then the info key; a value that is already absent raises
    [FileNotFoundError] at [DeleteValue], which is logged, and the
    function still returns [True]. *)
Definition set_auto_start (enable : bool) (exe_path : string)
    (icon : result string) (info_ok : bool) (reg : registry) : bool * registry :=
  match run_key reg with
  | None => (false, reg)
  | Some values =>
      if enable then
        match icon with
        | Raise _ => (false, reg)
        | Ret icon_path =>
            let values' := <[APP_NAME := quoted exe_path]> values in
            (true,
             {| run_key := Some values';
                info_key := if info_ok
                            then Some (info_values icon_path (info_key reg))
                            else info_key reg |})
        end
      else
        match values !! APP_NAME with
        | Some _ =>
            (true, {| run_key := Some (delete APP_NAME values); info_key := None |})
        | None => (true, reg)
        end
  end.

End AutoStart.

(** ** The reminder scheduler *)

Module Scheduler.

(** A [threading.Timer]. It is created with its interval and is not
    started yet ([Created]); [start()] makes it wait until [fire_at], its
    interval after the start ([Armed]); a [cancel()] before the callback
    has started makes it finish silently ([Cancelled]), also when it comes
    before the start; a [cancel()] after that does nothing. [fire_at] is
    [None] as long as the timer has not been started. *)
Inductive timer_status :=
| Created
| Armed
| Cancelled
| Fired.

Record timer_obj := {
  interval : Q;
  fire_at : option Q;
  status : timer_status
}.

(** Where a background thread stands. The timer thread runs
    [notify_and_reschedule] ([CbSend], then [CbGuard], the outer
    [if running]); the thread it spawns runs [delayed_reschedule]
    ([DrSleep] until the sleep is over, [DrGuard], the inner
    [if running]). The thread of a settings-apply runs [start_new_timer]
    ([NewTimer]), whose [icon_path] is the local of
    [create_settings_window], bound only if [get_icon_abs_path] returned
    when the dialog was opened. A thread inside [schedule_notification]
    stands before one of its statements: the read of [interval_sec]
    ([Sched]), the assignment of [next_run_time] ([SchedNext]), the
    creation of the timer and its assignment to [timer] ([SchedTimer]),
    [timer.daemon = True] ([SchedDaemon]) and [timer.start()]
    ([SchedStart]); [current_interval] is its local. *)
Inductive task :=
| CbSend
| CbGuard
| DrSleep (wake : Q)
| DrGuard
| NewTimer (icon_bound : bool)
| Sched
| SchedNext (current_interval : Q)
| SchedTimer (current_interval : Q)
| SchedDaemon
| SchedStart
| Done.

(** The globals [timer], [interval_sec], [next_run_time] and [running],
    with every timer created so far (a timer is named by its position),
    the background threads, the clock [time.time()], and the number of
    notifications sent. *)
Record state := {
  clock : Q;
  timers : list timer_obj;
  timer : option nat;
  interval_sec : Q;
  next_run_time : option Q;
  running : bool;
  threads : list task;
  sent : nat
}.

Definition is_armed (t : timer_obj) : bool :=
  match status t with
  | Armed => true
  | _ => false
  end.

Definition is_live (t : task) : bool :=
  match t with
  | Done => false
  | _ => true
  end.

Definition is_fired (t : timer_obj) : bool :=
  match status t with
  | Fired => true
  | _ => false
  end.

Definition is_cbsend (t : task) : bool :=
  match t with
  | CbSend => true
  | _ => false
  end.

(** A thread that has passed its last [running] check and will create
    or start a timer: it is inside [schedule_notification], or about to
    call it. *)
Definition is_sched (t : task) : bool :=
  match t with
  | NewTimer icon_bound => icon_bound
  | Sched | SchedNext _ | SchedTimer _ | SchedDaemon | SchedStart => true
  | _ => false
  end.

Definition is_started (t : timer_obj) : bool :=
  match fire_at t with
  | Some _ => true
  | None => false
  end.

(** The outstanding timers, and the threads that have not finished. *)
Definition armed_count (st : state) : nat := count is_armed (timers st).
Definition live_count (st : state) : nat := count is_live (threads st).

(** [Timer.cancel()]. *)
Definition cancel (t : timer_obj) : timer_obj :=
  match status t with
  | Created | Armed =>
      {| interval := interval t; fire_at := fire_at t; status := Cancelled |}
  | _ => t
  end.

(** [f] applied to the timer that [h] names, if there is one. *)
Definition at_handle (f : timer_obj → timer_obj) (h : option nat)
    (ts : list timer_obj) : list timer_obj :=
  match h with
  | Some i =>
      match ts !! i with
      | Some t => <[i := f t]> ts
      | None => ts
      end
  | None => ts
  end.

Definition cancel_handle (h : option nat) (ts : list timer_obj) : list timer_obj :=
  at_handle cancel h ts.

(** [Timer.start()] at time [now]: a timer that was started before
    raises [RuntimeError] and stays as it is; a timer cancelled before its
    start is started and finishes at once. *)
Definition timer_start (now : Q) (t : timer_obj) : timer_obj :=
  match fire_at t with
  | Some _ => t
  | None =>
      {| interval := interval t;
         fire_at := Some (now + interval t)%Q;
         status := match status t with
                   | Created => Armed
                   | s => s
                   end |}
  end.

Definition start_handle (h : option nat) (now : Q) (ts : list timer_obj)
  : list timer_obj :=
  at_handle (timer_start now) h ts.

Definition set_threads (st : state) (ts : list task) : state :=
  {| clock := clock st; timers := timers st; timer := timer st;
     interval_sec := interval_sec st; next_run_time := next_run_time st;
     running := running st; threads := ts; sent := sent st |}.

(** The statements of [schedule_notification] after the read of
    [interval_sec] into [current_interval]. Nothing is cancelled there,
    and the last two statements read the global [timer] again: they act on
    whatever timer it holds by then. [timer.daemon = True] raises when
    [timer] is [None] ([AttributeError]) or holds a timer that has been
    started ([RuntimeError]); the [except] clause then logs the error and
    the call ends. *)
Definition set_next_run_time (current_interval : Q) (st : state) : state :=
  {| clock := clock st; timers := timers st; timer := timer st;
     interval_sec := interval_sec st;
     next_run_time := Some (clock st + current_interval)%Q;
     running := running st; threads := threads st; sent := sent st |}.

Definition create_timer (current_interval : Q) (st : state) : state :=
  {| clock := clock st;
     timers := timers st ++ [{| interval := current_interval;
                                fire_at := None;
                                status := Created |}];
     timer := Some (length (timers st));
     interval_sec := interval_sec st; next_run_time := next_run_time st;
     running := running st; threads := threads st; sent := sent st |}.

Definition daemon_ok (st : state) : bool :=
  match timer st with
  | Some h =>
      match timers st !! h with
      | Some t => negb (is_started t)
      | None => false
      end
  | None => false
  end.

Definition start_timer (st : state) : state :=
  {| clock := clock st;
     timers := start_handle (timer st) (clock st) (timers st);
     timer := timer st;
     interval_sec := interval_sec st; next_run_time := next_run_time st;
     running := running st; threads := threads st; sent := sent st |}.

(** [schedule_notification] run without interruption, as [main] calls
    it before any other thread exists. *)
Definition schedule_notification (st : state) : state :=
  let current_interval := interval_sec st in
  let st := set_next_run_time current_interval st in
  let st := create_timer current_interval st in
  if daemon_ok st then start_timer st else st.

(** The state that an uninterrupted call of [schedule_notification]
    leaves, with the threads [ts]. *)
Definition scheduled (st : state) (ts : list task) : state :=
  {| clock := clock st;
     timers := timers st ++ [{| interval := interval_sec st;
                                fire_at := Some (clock st + interval_sec st)%Q;
                                status := Armed |}];
     timer := Some (length (timers st));
     interval_sec := interval_sec st;
     next_run_time := Some (clock st + interval_sec st)%Q;
     running := running st;
     threads := ts;
     sent := sent st |}.

(** The timer part of [apply_settings]: cancel the timer in [timer],
    set the interval, start a thread that runs [start_new_timer]. *)
Definition apply_reset (new_min : Q) (icon_bound : bool) (st : state) : state :=
  {| clock := clock st;
     timers := cancel_handle (timer st) (timers st);
     timer := timer st;
     interval_sec := (new_min * 60)%Q;
     next_run_time := next_run_time st;
     running := running st;
     threads := threads st ++ [NewTimer icon_bound];
     sent := sent st |}.

(** The scheduler part of the exit path: [process_commands] and
    [cleanup_and_exit] clear [running]; the timer in [timer] is cancelled
    and [timer] is set to [None]. *)
Definition shutdown (st : state) : state :=
  {| clock := clock st;
     timers := cancel_handle (timer st) (timers st);
     timer := None;
     interval_sec := interval_sec st;
     next_run_time := next_run_time st;
     running := false;
     threads := threads st;
     sent := sent st |}.

(** Whether a timer's time has come. *)
Definition due (t : timer_obj) (now : Q) : bool :=
  match fire_at t with
  | Some at_ => Qle_bool at_ now
  | None => false
  end.

(** A timer whose time has come starts its callback in its own thread. *)
Definition fire (i : nat) (st : state) : option state :=
  match timers st !! i with
  | Some t =>
      if is_armed t && due t (clock st) then
        Some {| clock := clock st;
                timers := <[i := {| interval := interval t;
                                    fire_at := fire_at t;
                                    status := Fired |}]> (timers st);
                timer := timer st;
                interval_sec := interval_sec st;
                next_run_time := next_run_time st;
                running := running st;
                threads := threads st ++ [CbSend];
                sent := sent st |}
      else None
  | None => None
  end.

(** One step of background thread [k]: [notify_and_reschedule],
    [delayed_reschedule], [start_new_timer] and [schedule_notification],
    statement by statement. [start_new_timer] raises [NameError] when its
    [icon_path] is not bound, and ends. *)
Definition run_thread (k : nat) (st : state) : option state :=
  match threads st !! k with
  | Some CbSend =>
      Some {| clock := clock st; timers := timers st; timer := timer st;
              interval_sec := interval_sec st; next_run_time := next_run_time st;
              running := running st;
              threads := <[k := CbGuard]> (threads st);
              sent := S (sent st) |}
  | Some CbGuard =>
      if running st
      then Some (set_threads st
                   (<[k := Done]> (threads st) ++ [DrSleep (clock st + (1 # 10))%Q]))
      else Some (set_threads st (<[k := Done]> (threads st)))
  | Some (DrSleep wake) =>
      if Qle_bool wake (clock st)
      then Some (set_threads st (<[k := DrGuard]> (threads st)))
      else None
  | Some DrGuard =>
      if running st
      then Some (set_threads st (<[k := Sched]> (threads st)))
      else Some (set_threads st (<[k := Done]> (threads st)))
  | Some (NewTimer icon_bound) =>
      Some (set_threads st
              (<[k := if icon_bound then Sched else Done]> (threads st)))
  | Some Sched =>
      Some (set_threads st (<[k := SchedNext (interval_sec st)]> (threads st)))
  | Some (SchedNext current_interval) =>
      Some (set_next_run_time current_interval
              (set_threads st (<[k := SchedTimer current_interval]> (threads st))))
  | Some (SchedTimer current_interval) =>
      Some (create_timer current_interval
              (set_threads st (<[k := SchedDaemon]> (threads st))))
  | Some SchedDaemon =>
      Some (set_threads st
              (<[k := if daemon_ok st then SchedStart else Done]> (threads st)))
  | Some SchedStart =>
      Some (start_timer (set_threads st (<[k := Done]> (threads st))))
  | Some Done => None
  | None => None
  end.

(** What can happen next: time passes, a due timer fires, a background
    thread takes a step, the user applies an accepted interval (minutes)
    in a dialog whose [icon_path] is bound or not, or the exit command is
    processed. *)
Inductive event :=
| Tick (d : Q)
| Fire (i : nat)
| Run (k : nat)
| Apply (new_min : Q) (icon_bound : bool)
| Shutdown.

Definition step (st : state) (ev : event) : option state :=
  match ev with
  | Tick d =>
      if Qle_bool 0 d then
        Some {| clock := (clock st + d)%Q; timers := timers st; timer := timer st;
                interval_sec := interval_sec st; next_run_time := next_run_time st;
                running := running st; threads := threads st; sent := sent st |}
      else None
  | Fire i => fire i st
  | Run k => run_thread k st
  | Apply new_min icon_bound => Some (apply_reset new_min icon_bound st)
  | Shutdown => Some (shutdown st)
  end.

Fixpoint run (st : state) (evs : list event) : option state :=
  match evs with
  | [] => Some st
  | ev :: evs' =>
      match step st ev with
      | Some st' => run st' evs'
      | None => None
      end
  end.

(** Step 4 of [main]: the first call of [schedule_notification]. *)
Definition start (now interval : Q) : state :=
  schedule_notification
    {| clock := now; timers := []; timer := None; interval_sec := interval;
       next_run_time := None; running := true; threads := []; sent := 0 |}.

(** A settings-apply reset is calm when no background thread is pending:
    no fire callback is between its timer's firing and the re-arm that
    follows, and no earlier reset's thread is still to run. *)
Definition calm (st : state) (ev : event) : bool :=
  match ev with
  | Apply _ _ => forallb (λ t, negb (is_live t)) (threads st)
  | _ => true
  end.

Fixpoint run_calm (st : state) (evs : list event) : option state :=
  match evs with
  | [] => Some st
  | ev :: evs' =>
      if calm st ev then
        match step st ev with
        | Some st' => run_calm st' evs'
        | None => None
        end
      else None
  end.

(** The events of the background threads and of the clock: what can
    still happen once the main thread has left its loop. *)
Definition background (ev : event) : bool :=
  match ev with
  | Tick _ | Fire _ | Run _ => true
  | Apply _ _ | Shutdown => false
  end.

(** The invariant of the calm executions: a pending thread and an
    outstanding timer never coexist, there is at most one of either, and
    an outstanding timer is the one held in [timer]. *)
Definition one_timer (st : state) : Prop :=
  live_count st + armed_count st ≤ 1 ∧
  ∀ (i : nat) (t : timer_obj),
    timers st !! i = Some t → is_armed t = true → timer st = Some i.

(** In every execution, each notification sent, and each callback about
    to send one, belongs to a timer of its own that has fired. *)
Definition sent_fired (st : state) : Prop :=
  sent st + count is_cbsend (threads st) = count is_fired (timers st).

(** A timer that can no longer fire: cancelled, or fired already. *)
Definition is_spent (t : timer_obj) : bool :=
  match status t with
  | Cancelled | Fired => true
  | _ => false
  end.

Definition spent (i : nat) (st : state) : Prop :=
  ∃ t : timer_obj, timers st !! i = Some t ∧ is_spent t = true.

(** A timer keeps its interval, and its due time once it is started. *)
Definition keeps (t t' : timer_obj) : Prop :=
  interval t' = interval t ∧
  ∀ at_ : Q, fire_at t = Some at_ → fire_at t' = Some at_.






(** After the exit: [running] is cleared and no thread stands past its
    last guard. *)
Definition stopped (st : state) : Prop :=
  running st = false ∧ count is_sched (threads st) = 0.

(** The steps of a thread from the call of [start_new_timer], and from
    the entry of [schedule_notification], to its end. *)
Definition new_timer_steps (k : nat) : list event := replicate 6 (Run k).
Definition schedule_steps (k : nat) : list event := replicate 5 (Run k).

(** A reset that lands in the 0.1 s between a notification and its
    delayed re-arm: the timer fires after an hour, its callback sends the
    notification and starts the delayed thread, the user applies 5 minutes
    and the new timer is started, then the delayed thread wakes up and
    schedules as well. *)
Definition race_reset : list event :=
  [ Tick 3600; Fire 0; Run 0; Run 0; Apply 5 true ] ++ new_timer_steps 2
  ++ [ Tick (1 # 10); Run 1; Run 1 ] ++ schedule_steps 1.

(** An exit that lands between the inner [if running] of the delayed
    thread and its call of [schedule_notification]. *)
Definition race_exit : list event :=
  [ Tick 3600; Fire 0; Run 0; Run 0; Tick (1 # 10); Run 1; Run 1; Shutdown ].

(** The first hour: the timer fires, the callback sends the
    notification and starts the delayed thread, which sleeps. *)
Definition first_notification : list event :=
  [ Tick 3600; Fire 0; Run 0; Run 0 ].

(** An hour of normal operation, then a reset to 5 minutes. *)
Definition calm_hour : list event :=
  [ Tick 3600; Fire 0; Run 0; Run 0; Tick (1 # 10); Run 1; Run 1 ]
  ++ schedule_steps 1 ++ [ Tick 10; Apply 5 true ] ++ new_timer_steps 2.

(** Two resets in a row whose threads overlap inside
    [schedule_notification]: the first thread reads the interval of 5
    minutes before the second reset; it assigns [next_run_time] before
    the second thread does, and creates its timer after the second thread
    has created its own. The first thread then starts the timer it finds
    in [timer], its own, and the second thread finds that timer started:
    [timer.daemon = True] raises and the second timer is never started. *)
Definition race_countdown : list event :=
  [ Apply 5 true; Run 0; Run 0; Apply 10 true; Run 1; Run 1;
    Run 0; Run 1; Run 1; Run 0; Run 0; Run 0; Run 1 ].

End Scheduler.

(** ** The countdown label *)

Module Countdown.

(** [int(x)] on a float: truncation toward zero. *)
Definition py_int (x : Q) : Z :=
  if Qle_bool 0 x then Qfloor x else Qceiling x.

(** The local [remaining] of [update_countdown], in whole seconds. *)
Definition remaining (next_run_time now : Q) : Z :=
  let remaining := py_int (next_run_time - now) in
  if (remaining <? 0)%Z then 0%Z else remaining.

(** [update_countdown]: the minutes and seconds put in the label, or
    [None] when the label is left as it is ([next_run_time] is [None], or
    the float zero, which is falsy). *)
Definition update_countdown (next_run_time : option Q) (now : Q) : option (Z * Z) :=
  match next_run_time with
  | Some t =>
      if Qeq_bool t 0 then None
      else
        let r := remaining t now in
        Some ((r / 60)%Z, (r mod 60)%Z)
  | None => None
  end.

End Countdown.

(** ** The settings dialog *)

Module Dialog.

(** The Tk side of the dialog: every toplevel created so far with
    whether it still exists (a window is named by its position), the
    global [settings_window], and the window last lifted and focused by
    the program. *)
Record gui := {
  windows : list bool;
  settings_window : option nat;
  focused : option nat
}.

Definition winfo_exists (g : gui) (w : nat) : bool :=
  match windows g !! w with
  | Some b => b
  | None => false
  end.

Definition existing (g : gui) : nat := count id (windows g).

(** [lift()] then [focus_force()]: Tk raises on a destroyed window. *)
Definition lift_and_focus (g : gui) (w : nat) : option gui :=
  if winfo_exists g w
  then Some {| windows := windows g; settings_window := settings_window g;
               focused := Some w |}
  else None.

(** How the second [try] block of [create_settings_window] ends: the
    window is built; [tk.Toplevel] itself raises; or a later call raises,
    when the window is there already. In both failures the handler sets
    [settings_window] to [None]. *)
Inductive build :=
| BuildOk
| ToplevelFails
| LayoutFails.

Definition build_window (b : build) (g : gui) : gui :=
  match b with
  | BuildOk =>
      {| windows := windows g ++ [true];
         settings_window := Some (length (windows g));
         focused := focused g |}
  | ToplevelFails =>
      {| windows := windows g; settings_window := None; focused := focused g |}
  | LayoutFails =>
      {| windows := windows g ++ [true]; settings_window := None;
         focused := focused g |}
  end.

(** [create_settings_window]: an open and existing window is lifted and
    focused, and the function returns; otherwise (or when lifting raised,
    after [settings_window = None]) a window is built. *)
Definition create_settings_window (b : build) (g : gui) : gui :=
  match settings_window g with
  | Some w =>
      if winfo_exists g w then
        match lift_and_focus g w with
        | Some g' => g'
        | None =>
            build_window b
              {| windows := windows g; settings_window := None;
                 focused := focused g |}
        end
      else build_window b g
  | None => build_window b g
  end.

(** [on_closing] of the window [w]: clear the reference, destroy the
    window. *)
Definition on_closing (w : nat) (g : gui) : gui :=
  {| windows := <[w := false]> (windows g);
     settings_window := None;
     focused := focused g |}.

(** Before the first [open_settings]. *)
Definition no_window : gui :=
  {| windows := []; settings_window := None; focused := None |}.

End Dialog.

(** ** The tray menu and the command loop *)

Module Tray.

(** [command_queue.put]: the queue is unbounded. *)
Definition on_exit (q : list string) : list string := q ++ ["exit"].
Definition on_open_settings (q : list string) : list string := q ++ ["open_settings"].

(** The menu built in [create_tray_icon]: two items, each with its
    callback. *)
Definition menu : list (list string → list string) := [on_open_settings; on_exit].

(** The [except] branch of [create_tray_icon]. *)
Definition tray_failed (q : list string) : list string := q ++ ["exit"].

(** The branches of [process_commands]. *)
Inductive branch :=
| BrExit
| BrOpenSettings
| BrToggleAutoStart
| BrNone.

Definition dispatch (command : string) : branch :=
  if String.eqb command "exit" then BrExit
  else if String.eqb command "open_settings" then BrOpenSettings
  else if String.eqb command "toggle_auto_start" then BrToggleAutoStart
  else BrNone.

Record loop := {
  command_queue : list string;
  running : bool;
  taken : list branch
}.

(** The producers (a click on menu item [i], or the tray thread failing)
    and the consumer (one turn of the [while running] loop). *)
Inductive event :=
| Click (i : nat)
| TrayFailure
| Poll.

Definition with_queue (l : loop) (q : list string) : loop :=
  {| command_queue := q; running := running l; taken := taken l |}.

Definition step (l : loop) (ev : event) : loop :=
  match ev with
  | Click i =>
      match menu !! i with
      | Some callback => with_queue l (callback (command_queue l))
      | None => l
      end
  | TrayFailure => with_queue l (tray_failed (command_queue l))
  | Poll =>
      if running l then
        match command_queue l with
        | [] => l
        | command :: q =>
            {| command_queue := q;
               running := match dispatch command with
                          | BrExit => false
                          | _ => running l
                          end;
               taken := taken l ++ [dispatch command] |}
        end
      else l
  end.

Definition start : loop :=
  {| command_queue := []; running := true; taken := [] |}.

Definition tray_command (c : string) : Prop := c = "open_settings" ∨ c = "exit".

End Tray.

(** ** Startup *)

Module Startup.
Import Py.

Section Main.

Variable str_to_float : string → option pyfloat.
Variable json_loads : string → result pyval.
Variable json_chunks : pyval → list string.

(** Steps 1 to 4 of [main]: load the config, compute [interval_sec],
    resolve the icon ([icon] is the outcome of [get_icon_abs_path]), and
    schedule the first notification at time [now]. An exception ends in
    the handler of [main], which exits with code 1. *)
Definition main (create_ok : bool) (icon : result string) (now : Q)
    (f : option string) : result Scheduler.state * option string :=
  match Settings.load_config str_to_float json_loads json_chunks create_ok f with
  | (Raise e, f') => (Raise e, f')
  | (Ret cfg, f') =>
      match dict_lookup cfg "interval_min" with
      | None => (Raise KeyError, f')
      | Some minutes =>
          match Settings.interval_seconds minutes with
          | None => (Raise TypeError, f')
          | Some interval_sec =>
              match icon with
              | Raise e => (Raise e, f')
              | Ret _ => (Ret (Scheduler.start now interval_sec), f')
              end
          end
      end
  end.

End Main.

End Startup.

(** ** The icon path *)

Module Icon.
Import Py.

(** The classes of [except (FileNotFoundError, json.JSONDecodeError,
    KeyError)]. *)
Definition caught (e : exn) : bool :=
  match e with
  | FileNotFoundError | JSONDecodeError | KeyError => true
  | _ => false
  end.

Section Paths.

Variable json_loads : string → result pyval.

(** [pathlib] on the host: [Path.is_absolute], [base / name],
    [Path.resolve] and [Path.exists], on the text of a path; and the
    directory returned by [get_app_path]. *)
Variable is_absolute : string → bool.
Variable joinpath : string → string → string.
Variable resolve : string → string.
Variable path_exists : string → bool.
Variable app_path : string.

(** The [except] branch of [get_icon_abs_path]: the icon next to the
    program, or [FileNotFoundError]. *)
Definition default_icon : string := joinpath app_path "icon.ico".

Definition fallback_icon : result string :=
  if path_exists default_icon then Ret default_icon else Raise FileNotFoundError.

(** [get_icon_abs_path]. [cwd_config] is [config.json] of the working
    directory ([CONFIG_FILE] is opened as a relative path here). A missing
    file, a text that is not JSON and an icon that does not exist end in
    the [except (FileNotFoundError, json.JSONDecodeError, KeyError)]
    branch. What the clause does not catch propagates: any other
    exception of [json.load] ([UnicodeDecodeError] for a file that is not
    UTF-8, [RecursionError]), the [AttributeError] of [cfg.get] on a
    document that is not a dict, and the [TypeError] of [Path] on a value
    that is not a string. *)
Definition get_icon_abs_path (cwd_config : option string) : result string :=
  match cwd_config with
  | None => fallback_icon
  | Some text =>
      match json_loads text with
      | Raise e => if caught e then fallback_icon else Raise e
      | Ret (PDict cfg) =>
          match dict_get cfg "icon_path" (PStr "icon.ico") with
          | PStr icon_path =>
              let p := if is_absolute icon_path then icon_path
                       else joinpath app_path icon_path in
              let p := resolve p in
              if path_exists p then Ret p else fallback_icon
          | _ => Raise TypeError
          end
      | Ret _ => Raise AttributeError
      end
  end.

End Paths.

End Icon.

(** ** The apply handler as a whole, and the toggle command *)

Module App.
Import Py.

(** What [apply_settings] reads and writes: [config.json], the registry
    and the scheduler. *)
Record app := {
  file : option string;
  reg : AutoStart.registry;
  sched : Scheduler.state
}.

(** How [apply_settings] ends: the success box; the [except ValueError]
    branch (the error is shown and the entry is set back to
    [interval_sec / 60]); or the [except Exception] branch. *)
Inductive outcome :=
| Applied (new_min : pyfloat)
| Rejected
| Failed (e : exn).

(** Whether [icon_path], the local of [create_settings_window] that
    [start_new_timer] reads, is bound: it is assigned by
    [icon_path = get_icon_abs_path()] when the dialog is built, and stays
    unbound when that call raised. *)
Definition icon_bound (dialog_icon : result string) : bool :=
  match dialog_icon with
  | Ret _ => true
  | Raise _ => false
  end.

Section Apply.

Variable str_to_float : string → option pyfloat.
Variable json_loads : string → result pyval.
Variable json_chunks : pyval → list string.
Variable encodes : string → bool.

(** [apply_settings]: validate, reload and rewrite the config, call
    [set_auto_start] (its result is not looked at), then reset the timer.
    [icon] is the outcome of [get_icon_abs_path] inside [set_auto_start],
    [dialog_icon] its outcome when the dialog was built. An exception of
    the first half ends in [except ValueError] or in [except Exception],
    by its class. [validate_interval] returns finite floats only; on
    anything else the scheduler is left alone here. *)
Definition apply_settings (entry : string) (auto_start create_ok open_ok : bool)
    (exe_path : string) (icon : result string) (info_ok : bool)
    (dialog_icon : result string) (a : app)
  : outcome * app :=
  match Settings.apply_save str_to_float json_loads json_chunks encodes open_ok
          entry auto_start create_ok (file a) with
  | (Raise e, f') =>
      (if is_ValueError e then Rejected else Failed e,
       {| file := f'; reg := reg a; sched := sched a |})
  | (Ret new_min, f') =>
      let reg' :=
        snd (AutoStart.set_auto_start auto_start exe_path icon info_ok (reg a)) in
      (Applied new_min,
       {| file := f';
          reg := reg';
          sched := match new_min with
                   | Fin q =>
                       Scheduler.apply_reset q (icon_bound dialog_icon) (sched a)
                   | _ => sched a
                   end |})
  end.

End Apply.

(** The [toggle_auto_start] branch of [process_commands]: read the
    status, ask for the opposite; the boolean says which message box is
    shown. *)
Definition toggle_auto_start (exe_path : string) (icon : result string)
    (info_ok : bool) (r : AutoStart.registry) : bool * AutoStart.registry :=
  let current_status := AutoStart.get_auto_start_status r in
  let new_status := negb current_status in
  AutoStart.set_auto_start new_status exe_path icon info_ok r.

End App.

(** ** Executions of the dialog and of the command queue *)

Module Loop.

(** What the user does with the dialog: an [open_settings] command
    ([b] says how building a window would go), or closing the window the
    program refers to, which runs its [on_closing]. *)
Inductive dialog_event :=
| Open (b : Dialog.build)
| Close.

Definition dialog_step (g : Dialog.gui) (ev : dialog_event) : Dialog.gui :=
  match ev with
  | Open b => Dialog.create_settings_window b g
  | Close =>
      match Dialog.settings_window g with
      | Some w => Dialog.on_closing w g
      | None => g
      end
  end.


(** The commands the producers have put on the queue so far, in order. *)
Definition produce (q : list string) (ev : Tray.event) : list string :=
  match ev with
  | Tray.Click i =>
      match Tray.menu !! i with
      | Some callback => callback q
      | None => q
      end
  | Tray.TrayFailure => Tray.tray_failed q
  | Tray.Poll => q
  end.

Definition posted (evs : list Tray.event) : list string :=
  fold_left produce evs [].

End Loop.

(** A codec that knows one document: the record saved when the interval
    5 is applied, with auto-start, on a first run. *)
Module SampleCodec.
Import Py.

Definition saved_doc : pyval :=
  PDict (dict_set (dict_set Settings.default_config "interval_min" (PFloat (Fin 5)))
           "auto_start" (PBool true)).

Definition chunks (doc : pyval) : list string := ["<"; "saved"; ">"].

Definition loads (text : string) : result pyval :=
  if String.eqb text "<saved>" then Ret saved_doc else Raise JSONDecodeError.

End SampleCodec.

(** * Properties *)

(** ** Counting, and comparisons of rationals *)

Module Basics.
Import Py.

Lemma Qlt_bool_iff (x y : Q) : Qlt_bool x y = true ↔ (x < y)%Q.
Proof.
  unfold Qlt_bool. rewrite negb_true_iff. split.
  - intros H. apply Qnot_le_lt. intros Hle.
    apply Qle_bool_iff in Hle. congruence.
  - intros H. destruct (Qle_bool y x) eqn:E; [|reflexivity].
    apply Qle_bool_iff in E. exfalso. exact (Qlt_not_le _ _ H E).
Qed.

Lemma Qlt_bool_false_iff (x y : Q) : Qlt_bool x y = false ↔ (y <= x)%Q.
Proof.
  unfold Qlt_bool. rewrite negb_false_iff. apply Qle_bool_iff.
Qed.

Lemma Qle_bool_false_iff (x y : Q) : Qle_bool x y = false ↔ (y < x)%Q.
Proof.
  rewrite <- Qlt_bool_iff. unfold Qlt_bool. now rewrite negb_true_iff.
Qed.

Section Count.

Context {A : Type} (p : A → bool).

Lemma count_app (l l' : list A) : count p (l ++ l') = count p l + count p l'.
Proof. induction l as [|x l IH]; simpl; [reflexivity | rewrite IH; lia]. Qed.

Lemma count_insert (l : list A) (i : nat) (x y : A) :
  l !! i = Some y →
  count p (<[i := x]> l) + (if p y then 1 else 0)
  = count p l + (if p x then 1 else 0).
Proof.
  revert i. induction l as [|z l IH]; intros i H; [discriminate|].
  destruct i as [|i]; simpl in *.
  - injection H as ->. lia.
  - specialize (IH i H). lia.
Qed.

Lemma count_pos (l : list A) (i : nat) (x : A) :
  l !! i = Some x → p x = true → 1 ≤ count p l.
Proof.
  revert i. induction l as [|z l IH]; intros i H Hp; [discriminate|].
  destruct i as [|i]; simpl in *.
  - injection H as ->. rewrite Hp. lia.
  - specialize (IH i H Hp). lia.
Qed.

Lemma count_zero (l : list A) :
  (∀ i x, l !! i = Some x → p x = false) → count p l = 0.
Proof.
  induction l as [|z l IH]; intros H; [reflexivity|]. simpl.
  rewrite (H 0 z eq_refl). rewrite IH; [reflexivity|].
  intros i x Hi. exact (H (S i) x Hi).
Qed.

Lemma count_zero_lookup (l : list A) (i : nat) (x : A) :
  count p l = 0 → l !! i = Some x → p x = false.
Proof.
  intros H0 Hi. destruct (p x) eqn:E; [|reflexivity].
  pose proof (count_pos l i x Hi E). lia.
Qed.

End Count.

End Basics.

(** ** [validate_interval] *)

Module SettingsProps.
Import Py Settings Basics.

Section Validate.

Variable str_to_float : string → option pyfloat.

(** What [validate_interval] does with a finite float. *)
Lemma validate_interval_finite (raw : pyval) (v : Q) :
  py_float str_to_float raw = Ret (Fin v) →
  validate_interval str_to_float raw =
    if Qle_bool v 0 then Raise ValueError
    else if Qlt_bool day_minutes v then Raise ValueError
    else Ret (Fin (if Qlt_bool tenth v then v else tenth)).
Proof.
  intros H. unfold validate_interval. rewrite H. simpl.
  destruct (Qle_bool v 0); [reflexivity|].
  destruct (Qlt_bool day_minutes v); [reflexivity|].
  unfold py_max. simpl. destruct (Qlt_bool tenth v); reflexivity.
Qed.

(** nan passes both comparisons, and [max(0.1, nan)] is [0.1]. *)
Lemma validate_interval_nan (raw : pyval) :
  py_float str_to_float raw = Ret NaN →
  validate_interval str_to_float raw = Ret (Fin tenth).
Proof. intros H. unfold validate_interval. now rewrite H. Qed.

(** An int too large for a double is not turned into [ValueError]. *)
Lemma validate_interval_overflow (raw : pyval) :
  py_float str_to_float raw = Raise OverflowError →
  validate_interval str_to_float raw = Raise OverflowError.
Proof. intros H. unfold validate_interval. now rewrite H. Qed.

(** Whatever is returned is a finite float between [0.1] and [1440]. *)
Lemma validate_interval_range (raw : pyval) (f : pyfloat) :
  validate_interval str_to_float raw = Ret f →
  ∃ v : Q, f = Fin v ∧ (tenth <= v)%Q ∧ (v <= day_minutes)%Q.
Proof.
  unfold validate_interval.
  destruct (py_float str_to_float raw) as [g|e].
  2:{ destruct (is_ValueError e || is_TypeError e); discriminate. }
  destruct g as [q| | |]; simpl.
  - destruct (Qle_bool q 0) eqn:E0; [discriminate|].
    destruct (Qlt_bool day_minutes q) eqn:E1; [discriminate|].
    unfold py_max. simpl. intros H.
    apply Qlt_bool_false_iff in E1.
    destruct (Qlt_bool tenth q) eqn:E2; inversion H; subst.
    + exists q. split; [reflexivity|]. apply Qlt_bool_iff in E2.
      split; [apply Qlt_le_weak, E2 | exact E1].
    + exists tenth. split; [reflexivity|]. split; [apply Qle_refl | discriminate].
  - discriminate.
  - discriminate.
  - intros H. inversion H; subst. exists tenth.
    split; [reflexivity|]. split; [apply Qle_refl | discriminate].
Qed.

(** On the inputs that [float] turns into a number [v] with
    [0 < v <= 1440], the function returns [max(0.1, v)] (which is [v] or
    [0.1], and at least [0.1]); when [float] raises [ValueError] or
    [TypeError], or the number is [<= 0] or [> 1440] (the infinities
    included), it raises [ValueError]. The two remaining kinds of input
    are those of [validate_interval_nan] and [validate_interval_overflow]. *)
Lemma validate_interval_listed (raw : pyval) :
  (∀ v : Q, py_float str_to_float raw = Ret (Fin v) →
     (0 < v)%Q → (v <= 1440)%Q →
     ∃ r : Q, validate_interval str_to_float raw = Ret (Fin r) ∧
              (r == Qmax (1 # 10) v)%Q ∧ (r = v ∨ r = (1 # 10)%Q)) ∧
  (∀ e : exn, py_float str_to_float raw = Raise e →
     is_ValueError e || is_TypeError e = true →
     validate_interval str_to_float raw = Raise ValueError) ∧
  (∀ v : Q, py_float str_to_float raw = Ret (Fin v) →
     (v <= 0)%Q → validate_interval str_to_float raw = Raise ValueError) ∧
  (∀ v : Q, py_float str_to_float raw = Ret (Fin v) →
     (1440 < v)%Q → validate_interval str_to_float raw = Raise ValueError) ∧
  (py_float str_to_float raw = Ret PosInf →
     validate_interval str_to_float raw = Raise ValueError) ∧
  (py_float str_to_float raw = Ret NegInf →
     validate_interval str_to_float raw = Raise ValueError).
Proof.
  repeat split.
  - intros v Hf Hpos Hle.
    rewrite (validate_interval_finite raw v Hf).
    destruct (Qle_bool v 0) eqn:E0.
    { apply Qle_bool_iff in E0. exfalso. exact (Qlt_not_le _ _ Hpos E0). }
    destruct (Qlt_bool day_minutes v) eqn:E1.
    { apply Qlt_bool_iff in E1. exfalso. exact (Qlt_not_le _ _ E1 Hle). }
    destruct (Qlt_bool tenth v) eqn:E2.
    + exists v. split; [reflexivity|]. split; [|left; reflexivity].
      apply Qlt_bool_iff in E2. symmetry. apply Q.max_r.
      apply Qlt_le_weak, E2.
    + exists tenth. split; [reflexivity|]. split; [|right; reflexivity].
      apply Qlt_bool_false_iff in E2. symmetry. apply Q.max_l. exact E2.
  - intros e Hf He. unfold validate_interval. rewrite Hf, He. reflexivity.
  - intros v Hf Hle. rewrite (validate_interval_finite raw v Hf).
    apply Qle_bool_iff in Hle. rewrite Hle. reflexivity.
  - intros v Hf Hgt. rewrite (validate_interval_finite raw v Hf).
    apply Qlt_bool_iff in Hgt. unfold day_minutes. rewrite Hgt.
    destruct (Qle_bool v 0); reflexivity.
  - intros Hf. unfold validate_interval. rewrite Hf. reflexivity.
  - intros Hf. unfold validate_interval. rewrite Hf. reflexivity.
Qed.

(** C4, at the inputs on which the code departs from it. A nan, which
    [float] returns for the text [nan] and [json.load] for the literal
    [NaN], is not a number between 0 and 1440, yet it passes both
    comparisons and [validate_interval] returns [max(0.1, nan)], which is
    [0.1], instead of raising. An int beyond the range of a double, such
    as ten to the power 400 in [config.json], is above 1440, yet [float]
    raises [OverflowError], which is neither [ValueError] nor [TypeError]:
    the [except] clause lets it through, and what is raised is not the
    invalid-interval error. *)
Theorem validate_interval_escapes :
  validate_interval str_to_float (PFloat NaN) = Ret (Fin (1 # 10)) ∧
  (∀ s : string,
     str_to_float s = Some NaN →
     validate_interval str_to_float (PStr s) = Ret (Fin (1 # 10))) ∧
  float_le NaN 0 = false ∧ float_gt NaN 0 = false ∧ float_gt NaN 1440 = false ∧
  (1440 < inject_Z (10 ^ 400))%Q ∧
  validate_interval str_to_float (PInt (10 ^ 400)) = Raise OverflowError ∧
  is_ValueError OverflowError = false ∧
  is_TypeError OverflowError = false.
Proof.
  split; [reflexivity|]. split.
  { intros s Hs. apply validate_interval_nan. simpl. now rewrite Hs. }
  split; [reflexivity|]. split; [reflexivity|]. split; [reflexivity|].
  split; [vm_compute; reflexivity|].
  split; [|split; reflexivity].
  apply validate_interval_overflow. vm_compute. reflexivity.
Qed.

End Validate.

(** *** Dicts *)

Lemma dict_lookup_set_eq (d : list (string * pyval)) (k : string) (v : pyval) :
  dict_lookup (dict_set d k v) k = Some v.
Proof.
  induction d as [|[k' v'] d IH]; simpl.
  - now rewrite String.eqb_refl.
  - destruct (String.eqb k' k) eqn:E; simpl; rewrite E; [reflexivity | exact IH].
Qed.

Lemma dict_lookup_set_ne (d : list (string * pyval)) (k k' : string) (v : pyval) :
  k ≠ k' → dict_lookup (dict_set d k v) k' = dict_lookup d k'.
Proof.
  intros Hne. induction d as [|[k0 v0] d IH]; simpl.
  - apply String.eqb_neq in Hne. now rewrite Hne.
  - destruct (String.eqb k0 k) eqn:E; simpl.
    + apply String.eqb_eq in E. subst k0.
      apply String.eqb_neq in Hne. now rewrite Hne.
    + destruct (String.eqb k0 k'); [reflexivity | exact IH].
Qed.

Lemma dict_get_set_ne (d : list (string * pyval)) (k k' : string) (v dflt : pyval) :
  k ≠ k' → dict_get (dict_set d k v) k' dflt = dict_get d k' dflt.
Proof. intros Hne. unfold dict_get. now rewrite dict_lookup_set_ne. Qed.

#[local] Ltac dict_simpl :=
  repeat first
    [ rewrite dict_lookup_set_eq
    | rewrite dict_lookup_set_ne by (first [discriminate | congruence])
    | rewrite dict_get_set_ne by (first [discriminate | congruence]) ].

(** The four fields that [load_config] does not validate, with their
    defaults, are those of [default_config] after the interval. *)
Lemma fill_defaults_interval (config : list (string * pyval)) (interval : pyfloat) :
  dict_lookup (fill_defaults config interval) "interval_min" = Some (PFloat interval).
Proof. unfold fill_defaults. now dict_simpl. Qed.

Lemma fill_defaults_field (config : list (string * pyval)) (interval : pyfloat)
    (k : string) (dflt : pyval) :
  In (k, dflt) (tail default_config) →
  dict_lookup (fill_defaults config interval) k = Some (dict_get config k dflt).
Proof.
  unfold fill_defaults. simpl.
  intros [H|[H|[H|[H|[]]]]]; inversion H; subst; now dict_simpl.
Qed.


(** *** Writing the file in place *)

#[local] Arguments String.append : simpl nomatch.

Lemma append_empty_r (s : string) : String.append s EmptyString = s.
Proof. induction s as [|c s IH]; simpl; [reflexivity | now rewrite IH]. Qed.

Lemma append_assoc (a b c : string) :
  String.append (String.append a b) c = String.append a (String.append b c).
Proof. induction a as [|x a IH]; simpl; [reflexivity | now rewrite IH]. Qed.

Lemma length_append (a b : string) :
  String.length (String.append a b) = String.length a + String.length b.
Proof. induction a as [|x a IH]; simpl; [reflexivity | now rewrite IH]. Qed.

Lemma length_zero (a : string) : String.length a = 0 → a = EmptyString.
Proof. destruct a; [reflexivity | discriminate]. Qed.

(** While chunks are written, the disk and the buffer together hold the
    text written so far, and nothing reaches the disk as long as the
    buffer can take it. *)
Lemma run_chunks (chunks : list string) (fo : file_object) (d : string) :
  disk fo = Some d →
  let fo' := run_ops (map WriteChunk chunks) fo in
  ∃ d' : string,
    disk fo' = Some d' ∧
    String.append d' (pending fo')
      = String.append d (String.append (pending fo) (join chunks)) ∧
    (String.length (String.append (pending fo) (join chunks)) ≤ buffer_size →
     d' = d).
Proof.
  revert fo d. induction chunks as [|c chunks IH]; intros fo d Hd; simpl.
  - exists d. rewrite append_empty_r. auto.
  - change (fold_left exec_op ?ops ?x) with (run_ops ops x).
    set (fo1 := {| disk := disk fo; pending := String.append (pending fo) c |}).
    destruct (Nat.leb_spec (String.length (String.append (pending fo) c)) buffer_size)
      as [Hfit|Hfull].
    + destruct (IH fo1 d Hd) as (d' & H1 & H2 & H3). exists d'.
      split; [exact H1|]. split.
      * rewrite H2. simpl. now rewrite append_assoc.
      * intros Hlen. apply H3. simpl. now rewrite append_assoc.
    + destruct (IH (flush fo1) (String.append d (String.append (pending fo) c)))
        as (d' & H1 & H2 & H3).
      { unfold flush. simpl. now rewrite Hd. }
      exists d'. split; [exact H1|]. split.
      * rewrite H2. simpl. now rewrite !append_assoc.
      * intros Hlen. exfalso. rewrite <- append_assoc, length_append in Hlen. lia.
Qed.

(** A write that runs to the end leaves the whole text. *)
Lemma run_dump_ops (chunks : list string) (f : option string) :
  disk (run_ops (dump_ops chunks) (closed f)) = Some (join chunks).
Proof.
  unfold dump_ops, run_ops. simpl. rewrite fold_left_app. simpl.
  destruct (run_chunks chunks {| disk := Some EmptyString; pending := EmptyString |}
              EmptyString eq_refl) as (d' & H1 & H2 & _).
  unfold run_ops in H1, H2. unfold flush. rewrite H1. simpl.
  simpl in H2. now rewrite H2.
Qed.

(** Killed before the open, the file is as it was; killed after the open
    and [k] chunks, the disk holds a part of the text written so far and
    nothing else, and none of it while the buffer can take the text. *)
Lemma crash_before_open (chunks : list string) (f : option string) :
  crash_after 0 chunks f = f.
Proof. reflexivity. Qed.

Lemma crash_after_open (k : nat) (chunks : list string) (f : option string) :
  ∃ p rest : string,
    crash_after (S k) chunks f = Some p ∧
    join (take k chunks) = String.append p rest ∧
    (k ≤ length chunks → String.length (join (take k chunks)) ≤ buffer_size →
     p = EmptyString).
Proof.
  unfold crash_after, dump_ops. simpl.
  change (fold_left exec_op ?ops ?x) with (run_ops ops x).
  destruct (decide (k ≤ length chunks)) as [Hk|Hk].
  - rewrite take_app_le by (rewrite length_map; exact Hk).
    rewrite firstn_map.
    destruct (run_chunks (take k chunks)
                {| disk := Some EmptyString; pending := EmptyString |}
                EmptyString eq_refl) as (d' & H1 & H2 & H3).
    exists d', (pending (run_ops (map WriteChunk (take k chunks))
                           {| disk := Some EmptyString; pending := EmptyString |})).
    split; [exact H1|]. split; [now rewrite H2|].
    intros _ Hlen. apply H3. exact Hlen.
  - rewrite take_ge by (rewrite length_app, length_map; simpl; lia).
    pose proof (run_dump_ops chunks f) as H. unfold dump_ops, run_ops in H.
    simpl in H. unfold run_ops. rewrite H.
    exists (join chunks), EmptyString. split; [reflexivity|].
    split; [|intros Hle; now destruct Hk].
    rewrite take_ge by lia. now rewrite append_empty_r.
Qed.

Section Load.

Variable str_to_float : string → option pyfloat.
Variable json_loads : string → result pyval.
Variable json_chunks : pyval → list string.

Lemma write_json_text (doc : pyval) (f : option string) :
  write_json json_chunks doc f = Some (join (json_chunks doc)).
Proof. apply run_dump_ops. Qed.

(** An absent file: the defaults are written (when the write works) and
    returned. *)
Lemma load_config_absent (create_ok : bool) :
  load_config str_to_float json_loads json_chunks create_ok None
  = (Ret default_config,
     if create_ok then Some (join (json_chunks (PDict default_config))) else None).
Proof.
  unfold Settings.load_config. destruct create_ok; [|reflexivity].
  now rewrite write_json_text.
Qed.

(** A document that is not an object makes [load_config] raise: the
    handler of [main] then exits with code 1. *)
Lemma load_config_not_object (create_ok : bool) (text : string) (doc : pyval) :
  json_loads text = Ret doc →
  (∀ d, doc ≠ PDict d) →
  load_config str_to_float json_loads json_chunks create_ok (Some text)
  = (Raise AttributeError, Some text).
Proof.
  intros H Hd. unfold Settings.load_config. rewrite H.
  destruct doc; try reflexivity. now destruct (Hd d).
Qed.

(** A file that [load_config] reads is left as it is. *)
Lemma load_config_keeps (create_ok : bool) (text : string)
    (r : result (list (string * pyval))) (f' : option string) :
  load_config str_to_float json_loads json_chunks create_ok (Some text) = (r, f') →
  f' = Some text.
Proof.
  unfold load_config.
  destruct (json_loads text) as [[| | | | | |config]|e]; try (now intros [= _ <-]).
  - destruct (validate_interval str_to_float _) as [i|e]; [now intros [= _ <-]|].
    destruct (is_ValueError e); now intros [= _ <-].
  - destruct (is_ValueError e); now intros [= _ <-].
Qed.


End Load.

Section Save.

Variable str_to_float : string → option pyfloat.
Variable json_loads : string → result pyval.
Variable json_chunks : pyval → list string.
Variable encodes : string → bool.

(** When the encoder accepts every chunk, all of them are written. *)
Lemma encoded_all (chunks : list string) :
  snd (encoded encodes chunks) = true → fst (encoded encodes chunks) = chunks.
Proof.
  induction chunks as [|c chunks IH]; simpl; [reflexivity|].
  destruct (encodes c); simpl; [|discriminate].
  intros H. now rewrite (IH H).
Qed.

(** The chunks written are the first chunks of the text. *)
Lemma encoded_prefix (chunks : list string) :
  ∃ rest : list string, chunks = fst (encoded encodes chunks) ++ rest.
Proof.
  induction chunks as [|c chunks [rest IH]]; simpl; [now exists []|].
  destruct (encodes c); simpl; [|now exists (c :: chunks)].
  exists rest. now rewrite <- IH.
Qed.

Lemma save_json_ok (doc : pyval) (f : option string) :
  snd (encoded encodes (json_chunks doc)) = true →
  save_json json_chunks encodes true doc f = (Ret tt, Some (join (json_chunks doc))).
Proof.
  intros H. unfold save_json. rewrite H, (encoded_all _ H).
  now rewrite run_dump_ops.
Qed.

(** C6, amended. The apply handler rewrites [config.json] in place: it
    opens the file for writing, which truncates it, hands the chunks of
    the new JSON text to the file object and closes it; there is no
    temporary file and no rename. A completed save leaves the new text. A
    process killed before the open leaves the old text; killed after the
    open and [k] chunks, it leaves a first part of the text written so far
    and nothing of the old text, and it leaves the file empty as long as
    that text fits the buffer of the file object. *)
Theorem apply_save_in_place (entry : string) (auto_start create_ok : bool)
    (old : string) (new_min : pyfloat) (cfg : list (string * pyval)) :
  validate_interval str_to_float (PStr entry) = Ret new_min →
  fst (load_config str_to_float json_loads json_chunks create_ok (Some old)) = Ret cfg →
  let doc :=
    PDict (dict_set (dict_set cfg "interval_min" (PFloat new_min))
             "auto_start" (PBool auto_start)) in
  snd (encoded encodes (json_chunks doc)) = true →
  apply_save str_to_float json_loads json_chunks encodes true entry auto_start
      create_ok (Some old)
    = (Ret new_min, Some (join (json_chunks doc))) ∧
  apply_save_crash str_to_float json_loads json_chunks encodes 0 entry auto_start
      create_ok (Some old)
    = (Ret new_min, Some old) ∧
  (∀ k : nat,
     ∃ p rest : string,
       apply_save_crash str_to_float json_loads json_chunks encodes (S k) entry
           auto_start create_ok (Some old)
         = (Ret new_min, Some p) ∧
       join (take k (json_chunks doc)) = String.append p rest ∧
       (k ≤ length (json_chunks doc) →
        String.length (join (take k (json_chunks doc))) ≤ buffer_size →
        p = EmptyString)).
Proof.
  intros Hv Hl doc Henc.
  assert (Hf : load_config str_to_float json_loads json_chunks create_ok (Some old)
               = (Ret cfg, Some old)).
  { destruct (load_config str_to_float json_loads json_chunks create_ok (Some old))
      as [r f'] eqn:E. simpl in Hl. subst r.
    now rewrite (load_config_keeps _ _ _ _ _ _ _ E). }
  unfold apply_save, apply_save_crash, apply_save_with.
  rewrite Hv, Hf. fold doc. split; [|split].
  - now rewrite (save_json_ok doc (Some old) Henc).
  - reflexivity.
  - intros k. unfold save_json_crash. rewrite (encoded_all _ Henc).
    destruct (crash_after_open k (json_chunks doc) (Some old)) as (p & rest & H1 & H2 & H3).
    exists p, rest. simpl. rewrite H1. auto.
Qed.

End Save.

(** C6 at a sample: the entry holds 5, the file is the empty object. *)
Lemma apply_save_in_place_witness :
  let doc :=
    PDict (dict_set (dict_set (fill_defaults [] (Fin 60)) "interval_min" (PFloat (Fin 5)))
             "auto_start" (PBool false)) in
  apply_save sample_str_to_float sample_loads sample_chunks (λ _, true) true "5" false
      true (Some "{}")
    = (Ret (Fin 5), Some (join (sample_chunks doc))) ∧
  apply_save_crash sample_str_to_float sample_loads sample_chunks (λ _, true) 0 "5"
      false true (Some "{}")
    = (Ret (Fin 5), Some "{}") ∧
  (∀ k : nat,
     ∃ p rest : string,
       apply_save_crash sample_str_to_float sample_loads sample_chunks (λ _, true)
           (S k) "5" false true (Some "{}")
         = (Ret (Fin 5), Some p) ∧
       join (take k (sample_chunks doc)) = String.append p rest ∧
       (k ≤ length (sample_chunks doc) →
        String.length (join (take k (sample_chunks doc))) ≤ buffer_size →
        p = EmptyString)).
Proof.
  apply (apply_save_in_place sample_str_to_float sample_loads sample_chunks
           (λ _, true) "5" false true "{}" (Fin 5) (fill_defaults [] (Fin 60)));
    reflexivity.
Defined.

(** C6 as stated fails: [config.json] holds the empty object, a valid
    file; the process is killed during the save, after the file has been
    opened for writing and the first chunks have been handed to the file
    object; the file is then empty, which is not JSON. *)
Lemma apply_save_crash_loses_file :
  sample_loads "{}" = Ret (PDict []) ∧
  snd (apply_save_crash sample_str_to_float sample_loads sample_chunks (λ _, true) 1
         "5" false true (Some "{}")) = Some EmptyString ∧
  snd (apply_save_crash sample_str_to_float sample_loads sample_chunks (λ _, true) 3
         "5" false true (Some "{}")) = Some EmptyString ∧
  Some EmptyString ≠ Some "{}" ∧
  sample_loads EmptyString = Raise JSONDecodeError.
Proof. repeat split; try reflexivity. discriminate. Qed.



(** The documents on which [load_config] raises, at the JSON array. *)
Lemma load_config_array_raises :
  load_config (λ _, None) sample_loads (λ _, []) true (Some "[]")
  = (Raise AttributeError, Some "[]").
Proof. reflexivity. Qed.

End SettingsProps.

(** ** Auto-start and the first run *)

Module StartupProps.
Import Py Settings AutoStart.

(** Disabling a registration that is not there changes nothing and
    succeeds; the status stays "not registered". *)
Lemma set_auto_start_off_absent (exe_path : string) (icon : result string)
    (info_ok : bool) (reg : registry) (values : gmap string string) :
  run_key reg = Some values →
  values !! APP_NAME = None →
  set_auto_start false exe_path icon info_ok reg = (true, reg) ∧
  get_auto_start_status reg = false.
Proof.
  intros Hk Hv. unfold set_auto_start, get_auto_start_status.
  rewrite Hk, Hv. split; [reflexivity|].
  apply bool_decide_eq_false. intros [x Hx]. discriminate.
Qed.

(** When the Run key cannot be opened, every call reports failure. *)
Lemma set_auto_start_no_run_key (enable : bool) (exe_path : string)
    (icon : result string) (info_ok : bool) (reg : registry) :
  run_key reg = None →
  set_auto_start enable exe_path icon info_ok reg = (false, reg).
Proof. intros Hk. unfold set_auto_start. now rewrite Hk. Qed.

(** Enabling registers the program, and disabling after that removes the
    registration again. *)
Lemma set_auto_start_on_off (exe_path icon_path : string) (info_ok : bool)
    (reg : registry) (values : gmap string string) :
  run_key reg = Some values →
  let on := set_auto_start true exe_path (Ret icon_path) info_ok reg in
  fst on = true ∧
  get_auto_start_status (snd on) = true ∧
  get_auto_start_status
    (snd (set_auto_start false exe_path (Ret icon_path) info_ok (snd on))) = false.
Proof.
  intros Hk. unfold set_auto_start, get_auto_start_status. rewrite Hk. simpl.
  rewrite !lookup_insert_eq. simpl. rewrite lookup_delete_eq.
  repeat split.
Qed.

Section FirstRun.

Variable str_to_float : string → option pyfloat.
Variable json_loads : string → result pyval.
Variable json_chunks : pyval → list string.

(** C9. With no [config.json], [load_config] writes the default record,
    whose interval is 60 minutes, and returns it without raising; [main]
    then sets the interval to [60 * 60 = 3600] seconds and schedules the
    first notification 3600 seconds after the current time; and
    [set_auto_start(False)] on a Run key without the registration leaves
    the registry as it is and returns [True]. *)
Theorem first_run (icon_path exe_path : string) (icon : result string)
    (info_ok : bool) (now : Q) (reg : registry) (values : gmap string string) :
  run_key reg = Some values →
  values !! APP_NAME = None →
  load_config str_to_float json_loads json_chunks true None
    = (Ret default_config, Some (join (json_chunks (PDict default_config)))) ∧
  dict_lookup default_config "interval_min" = Some (PInt 60) ∧
  interval_seconds (PInt 60) = Some 3600%Q ∧
  Startup.main str_to_float json_loads json_chunks true (Ret icon_path) now None
    = (Ret (Scheduler.start now 3600),
       Some (join (json_chunks (PDict default_config)))) ∧
  Scheduler.next_run_time (Scheduler.start now 3600) = Some (now + 3600)%Q ∧
  Scheduler.timers (Scheduler.start now 3600)
    = [ {| Scheduler.interval := 3600;
           Scheduler.fire_at := Some (now + 3600)%Q;
           Scheduler.status := Scheduler.Armed |} ] ∧
  Scheduler.timer (Scheduler.start now 3600) = Some 0 ∧
  set_auto_start false exe_path icon info_ok reg = (true, reg) ∧
  get_auto_start_status (snd (set_auto_start false exe_path icon info_ok reg)) = false.
Proof.
  intros Hk Hv.
  assert (Hl : load_config str_to_float json_loads json_chunks true None
               = (Ret default_config, Some (join (json_chunks (PDict default_config)))))
    by apply (SettingsProps.load_config_absent str_to_float json_loads json_chunks true).
  destruct (set_auto_start_off_absent exe_path icon info_ok reg values Hk Hv)
    as [Hs Hg].
  repeat split; try reflexivity.
  - exact Hl.
  - unfold Startup.main. rewrite Hl. reflexivity.
  - exact Hs.
  - rewrite Hs. exact Hg.
Qed.

End FirstRun.

(** C9 at a sample: the registry has an empty Run key. *)
Lemma first_run_witness :
  load_config sample_str_to_float sample_loads sample_chunks true None
    = (Ret default_config, Some (join (sample_chunks (PDict default_config)))) ∧
  dict_lookup default_config "interval_min" = Some (PInt 60) ∧
  interval_seconds (PInt 60) = Some 3600%Q ∧
  Startup.main sample_str_to_float sample_loads sample_chunks true (Ret "icon.ico") 0 None
    = (Ret (Scheduler.start 0 3600),
       Some (join (sample_chunks (PDict default_config)))) ∧
  Scheduler.next_run_time (Scheduler.start 0 3600) = Some (0 + 3600)%Q ∧
  Scheduler.timers (Scheduler.start 0 3600)
    = [ {| Scheduler.interval := 3600;
           Scheduler.fire_at := Some (0 + 3600)%Q;
           Scheduler.status := Scheduler.Armed |} ] ∧
  Scheduler.timer (Scheduler.start 0 3600) = Some 0 ∧
  set_auto_start false "stretch_reminder.py" (Ret "icon.ico") true
      {| run_key := Some ∅; info_key := None |}
    = (true, {| run_key := Some ∅; info_key := None |}) ∧
  get_auto_start_status
    (snd (set_auto_start false "stretch_reminder.py" (Ret "icon.ico") true
            {| run_key := Some ∅; info_key := None |})) = false.
Proof.
  apply (first_run sample_str_to_float sample_loads sample_chunks
           "icon.ico" "stretch_reminder.py" (Ret "icon.ico") true 0
           {| run_key := Some ∅; info_key := None |} ∅);
    reflexivity.
Defined.

End StartupProps.

(** ** The scheduler *)

Module SchedulerProps.
Import Scheduler Basics.

Lemma calm_threads (ts : list task) :
  forallb (λ t, negb (is_live t)) ts = true → count is_live ts = 0.
Proof.
  induction ts as [|t ts IH]; simpl; [reflexivity|].
  intros H. apply andb_prop in H as [H1 H2].
  apply negb_true_iff in H1. rewrite H1, (IH H2). reflexivity.
Qed.

(** *** Lists that grow at the end, and executions in two parts *)

Lemma Qle_bool_refl (x : Q) : Qle_bool x x = true.
Proof. apply Qle_bool_iff, Qle_refl. Qed.

Lemma lookup_snoc {A : Type} (l : list A) (x : A) : (l ++ [x]) !! length l = Some x.
Proof. induction l as [|a l IH]; simpl; [reflexivity | exact IH]. Qed.

Lemma insert_snoc {A : Type} (l : list A) (x y : A) :
  <[length l := y]> (l ++ [x]) = l ++ [y].
Proof. induction l as [|a l IH]; simpl; [reflexivity | now rewrite IH]. Qed.

Lemma lookup_snoc2 {A : Type} (l : list A) (x y : A) :
  (l ++ [x; y]) !! S (length l) = Some y.
Proof. induction l as [|a l IH]; simpl; [reflexivity | exact IH]. Qed.

Lemma insert_snoc2 {A : Type} (l : list A) (x y z : A) :
  <[S (length l) := z]> (l ++ [x; y]) = l ++ [x; z].
Proof. induction l as [|a l IH]; simpl; [reflexivity | now rewrite IH]. Qed.

Lemma run_app (evs1 evs2 : list event) (st : state) :
  run st (evs1 ++ evs2)
  = match run st evs1 with
    | Some st1 => run st1 evs2
    | None => None
    end.
Proof.
  revert st. induction evs1 as [|ev evs1 IH]; intros st; simpl; [reflexivity|].
  destruct (step st ev); [apply IH | reflexivity].
Qed.

(** *** Acting on the timer in [timer] *)

Lemma length_at_handle (f : timer_obj → timer_obj) (h : option nat)
    (ts : list timer_obj) :
  length (at_handle f h ts) = length ts.
Proof.
  unfold at_handle. destruct h as [i|]; [|reflexivity].
  destruct (ts !! i); [apply length_insert | reflexivity].
Qed.

Lemma at_handle_here (f : timer_obj → timer_obj) (i : nat) (ts : list timer_obj)
    (t : timer_obj) :
  ts !! i = Some t → at_handle f (Some i) ts = <[i := f t]> ts.
Proof. intros H. unfold at_handle. now rewrite H. Qed.

Lemma at_handle_lookup (f : timer_obj → timer_obj) (h : option nat)
    (ts : list timer_obj) (j : nat) (t : timer_obj) :
  at_handle f h ts !! j = Some t →
  ∃ t0, ts !! j = Some t0 ∧
        ((h = Some j ∧ t = f t0) ∨ (h ≠ Some j ∧ t = t0)).
Proof.
  unfold at_handle. destruct h as [i|].
  - destruct (ts !! i) as [ti|] eqn:Ei.
    + destruct (decide (i = j)) as [->|Hne].
      * rewrite list_lookup_insert_eq by (eapply lookup_lt_Some; eauto).
        intros [= <-]. exists ti. split; [exact Ei | left; split; reflexivity].
      * rewrite list_lookup_insert_ne by exact Hne.
        intros H. exists t. split; [exact H | right; split; [congruence | reflexivity]].
    + intros H. exists t. split; [exact H|]. right. split; [|reflexivity].
      intros [= ->]. congruence.
  - intros H. exists t. split; [exact H | right; split; [discriminate | reflexivity]].
Qed.

Lemma at_handle_lookup_Some (f : timer_obj → timer_obj) (h : option nat)
    (ts : list timer_obj) (i : nat) (t : timer_obj) :
  ts !! i = Some t →
  ∃ t', at_handle f h ts !! i = Some t' ∧ (t' = t ∨ t' = f t).
Proof.
  intros Hi. unfold at_handle. destruct h as [j|]; [|eauto].
  destruct (ts !! j) as [tj|] eqn:Ej; [|eauto].
  destruct (decide (j = i)) as [->|Hne].
  - rewrite list_lookup_insert_eq by (eapply lookup_lt_Some; eauto).
    exists (f tj). split; [reflexivity|]. right. congruence.
  - rewrite list_lookup_insert_ne by exact Hne. eauto.
Qed.

Lemma at_handle_count (p : timer_obj → bool) (f : timer_obj → timer_obj)
    (h : option nat) (ts : list timer_obj) :
  (∀ t, p (f t) = p t) → count p (at_handle f h ts) = count p ts.
Proof.
  intros Hp. unfold at_handle. destruct h as [i|]; [|reflexivity].
  destruct (ts !! i) as [t|] eqn:E; [|reflexivity].
  pose proof (count_insert p ts i (f t) t E) as H. rewrite Hp in H. lia.
Qed.

(** *** Cancelling and starting *)

Lemma cancel_not_armed (t : timer_obj) : is_armed (cancel t) = false.
Proof. unfold cancel, is_armed. destruct t as [iv f []]; reflexivity. Qed.

Lemma cancel_fired (t : timer_obj) : is_fired (cancel t) = is_fired t.
Proof. destruct t as [iv f []]; reflexivity. Qed.

Lemma cancel_spent (t : timer_obj) : is_spent (cancel t) = true.
Proof. destruct t as [iv f []]; reflexivity. Qed.

Lemma start_fired (now : Q) (t : timer_obj) :
  is_fired (timer_start now t) = is_fired t.
Proof. destruct t as [iv [f|] []]; reflexivity. Qed.

Lemma start_spent (now : Q) (t : timer_obj) :
  is_spent (timer_start now t) = is_spent t.
Proof. destruct t as [iv [f|] []]; reflexivity. Qed.

Lemma length_cancel_handle (h : option nat) (ts : list timer_obj) :
  length (cancel_handle h ts) = length ts.
Proof. apply length_at_handle. Qed.


Lemma cancel_handle_lookup (h : option nat) (ts : list timer_obj) (j : nat)
    (t : timer_obj) :
  cancel_handle h ts !! j = Some t →
  ∃ t0, ts !! j = Some t0 ∧
        ((h = Some j ∧ t = cancel t0) ∨ (h ≠ Some j ∧ t = t0)).
Proof. apply at_handle_lookup. Qed.

(** Cancelling never arms anything. *)
Lemma cancel_handle_armed (h : option nat) (ts : list timer_obj) (j : nat)
    (t : timer_obj) :
  cancel_handle h ts !! j = Some t → is_armed t = true →
  h ≠ Some j ∧ ts !! j = Some t.
Proof.
  intros H Ha. destruct (cancel_handle_lookup h ts j t H) as (t0 & H0 & [[_ ->]|[Hn ->]]).
  - rewrite cancel_not_armed in Ha. discriminate.
  - split; assumption.
Qed.

(** When every outstanding timer is the one in [timer], cancelling that
    one leaves none. *)
Lemma cancel_handle_clears (h : option nat) (ts : list timer_obj) :
  (∀ j t, ts !! j = Some t → is_armed t = true → h = Some j) →
  count is_armed (cancel_handle h ts) = 0.
Proof.
  intros Hh. apply count_zero. intros j t Hj.
  destruct (is_armed t) eqn:Ea; [|reflexivity].
  destruct (cancel_handle_armed h ts j t Hj Ea) as [Hn H0].
  destruct Hn. exact (Hh j t H0 Ea).
Qed.

Lemma cancel_handle_count (h : option nat) (ts : list timer_obj) :
  count is_armed (cancel_handle h ts) ≤ count is_armed ts.
Proof.
  unfold cancel_handle, at_handle. destruct h as [i|]; [|lia].
  destruct (ts !! i) as [t|] eqn:E; [|lia].
  pose proof (count_insert is_armed ts i (cancel t) t E) as H.
  rewrite cancel_not_armed in H. destruct (is_armed t); lia.
Qed.

(** Starting arms at most the timer in [timer]. *)
Lemma start_handle_armed (h : option nat) (now : Q) (ts : list timer_obj) (j : nat)
    (t : timer_obj) :
  start_handle h now ts !! j = Some t → is_armed t = true →
  h = Some j ∨ (∃ t0, ts !! j = Some t0 ∧ is_armed t0 = true).
Proof.
  intros H Ha.
  destruct (at_handle_lookup (timer_start now) h ts j t H)
    as (t0 & H0 & [[Hh _]|[_ ->]]); [now left | right; eauto].
Qed.

Lemma start_handle_count (h : option nat) (now : Q) (ts : list timer_obj) :
  count is_armed ts = 0 → count is_armed (start_handle h now ts) ≤ 1.
Proof.
  intros H0. unfold start_handle, at_handle. destruct h as [i|]; [|lia].
  destruct (ts !! i) as [t|] eqn:E; [|lia].
  pose proof (count_insert is_armed ts i (timer_start now t) t E) as H.
  destruct (is_armed (timer_start now t)), (is_armed t); lia.
Qed.

(** *** The thread inside [schedule_notification] *)

Lemma schedule_notification_scheduled (st : state) :
  schedule_notification st = scheduled st (threads st).
Proof.
  unfold schedule_notification, daemon_ok, start_timer, start_handle, at_handle.
  cbn [create_timer set_next_run_time timer timers clock interval_sec next_run_time
       running threads sent].
  rewrite lookup_snoc. cbn [is_started fire_at negb].
  rewrite insert_snoc. reflexivity.
Qed.

Lemma start_scheduled (now interval : Q) :
  start now interval
  = {| clock := now;
       timers := [{| interval := interval; fire_at := Some (now + interval)%Q;
                     status := Armed |}];
       timer := Some 0; interval_sec := interval;
       next_run_time := Some (now + interval)%Q;
       running := true; threads := []; sent := 0 |}.
Proof. reflexivity. Qed.

#[local] Ltac norm_state :=
  cbn [set_threads set_next_run_time create_timer start_timer
       clock timers timer interval_sec next_run_time running sent threads
       run step].

#[local] Ltac thread_step k :=
  unfold run_thread at 1; norm_state;
  rewrite ?(list_lookup_insert_eq _ k) by assumption;
  rewrite ?list_insert_insert_eq.

(** A thread that enters [schedule_notification] and is not interrupted
    leaves the state of an uninterrupted call. *)
Lemma run_schedule_steps (st : state) (k : nat) :
  threads st !! k = Some Sched →
  run st (schedule_steps k) = Some (scheduled st (<[k := Done]> (threads st))).
Proof.
  intros Hk. assert (Hlt : k < length (threads st)) by (eapply lookup_lt_Some; eauto).
  unfold schedule_steps. cbn [replicate run step].
  unfold run_thread at 1. rewrite Hk.
  thread_step k. thread_step k. thread_step k.
  unfold daemon_ok. norm_state. rewrite lookup_snoc. cbn [is_started fire_at negb].
  thread_step k.
  unfold start_timer, start_handle, at_handle. norm_state.
  rewrite lookup_snoc, insert_snoc. reflexivity.
Qed.

Lemma run_new_timer_steps (st : state) (k : nat) :
  threads st !! k = Some (NewTimer true) →
  run st (new_timer_steps k) = Some (scheduled st (<[k := Done]> (threads st))).
Proof.
  intros Hk. assert (Hlt : k < length (threads st)) by (eapply lookup_lt_Some; eauto).
  unfold new_timer_steps. change (replicate 6 (Run k)) with (Run k :: schedule_steps k).
  cbn [run step]. unfold run_thread at 1. rewrite Hk.
  rewrite run_schedule_steps by (cbn; now rewrite list_lookup_insert_eq).
  cbn. now rewrite list_insert_insert_eq.
Qed.

(** *** Calm executions keep one timer *)

Lemma start_one_timer (now interval : Q) : one_timer (start now interval).
Proof.
  rewrite start_scheduled.
  split; [unfold live_count, armed_count; simpl; lia|].
  simpl. intros [|i] t H Ha; [reflexivity | discriminate].
Qed.

Lemma replace_thread_one_timer (st : state) (k : nat) (a b : task) :
  one_timer st → threads st !! k = Some a →
  is_live a = true →
  one_timer (set_threads st (<[k := b]> (threads st))).
Proof.
  intros [H1 Hh] Hk Ha. split; [|exact Hh].
  unfold live_count, armed_count in *. simpl.
  pose proof (count_insert is_live (threads st) k b a Hk) as Hc.
  rewrite Ha in Hc. destruct (is_live b); lia.
Qed.

(** While a thread is pending, no timer is outstanding. *)
Lemma pending_no_armed (st : state) (k : nat) (a : task) :
  one_timer st → threads st !! k = Some a → is_live a = true →
  count is_armed (timers st) = 0 ∧ count is_live (threads st) = 1.
Proof.
  intros [H1 _] Hk Ha. unfold live_count, armed_count in H1.
  pose proof (count_pos is_live (threads st) k a Hk Ha). lia.
Qed.

Lemma set_next_one_timer (ci : Q) (st : state) :
  one_timer st → one_timer (set_next_run_time ci st).
Proof. intros H. exact H. Qed.

Lemma create_one_timer (st : state) (k : nat) (ci : Q) :
  one_timer st → threads st !! k = Some (SchedTimer ci) →
  one_timer (create_timer ci (set_threads st (<[k := SchedDaemon]> (threads st)))).
Proof.
  intros Hinv Hk.
  destruct (pending_no_armed st k _ Hinv Hk eq_refl) as [H0 H1].
  pose proof (count_insert is_live (threads st) k SchedDaemon _ Hk) as Hc.
  simpl in Hc. split.
  - unfold live_count, armed_count. simpl. rewrite count_app. simpl. lia.
  - simpl. intros i t Hi Ha. exfalso.
    destruct (decide (i < length (timers st))) as [Hlt|Hge].
    + rewrite lookup_app_l in Hi by exact Hlt.
      rewrite (count_zero_lookup is_armed _ i t H0 Hi) in Ha. discriminate.
    + destruct (decide (i = length (timers st))) as [->|Hne].
      * rewrite lookup_snoc in Hi. injection Hi as <-. discriminate.
      * rewrite lookup_ge_None_2 in Hi; [discriminate|].
        rewrite length_app. simpl. lia.
Qed.

Lemma start_timer_one_timer (st : state) (k : nat) :
  one_timer st → threads st !! k = Some SchedStart →
  one_timer (start_timer (set_threads st (<[k := Done]> (threads st)))).
Proof.
  intros Hinv Hk.
  destruct (pending_no_armed st k _ Hinv Hk eq_refl) as [H0 H1].
  pose proof (count_insert is_live (threads st) k Done _ Hk) as Hc.
  simpl in Hc. split.
  - unfold live_count, armed_count. simpl.
    pose proof (start_handle_count (timer st) (clock st) (timers st) H0). lia.
  - simpl. intros i t Hi Ha.
    destruct (start_handle_armed _ _ _ i t Hi Ha) as [Hh|(t0 & Hi0 & Ha0)];
      [exact Hh|].
    rewrite (count_zero_lookup is_armed _ i t0 H0 Hi0) in Ha0. discriminate.
Qed.

(** Every step of a calm execution keeps the invariant. *)
Lemma step_one_timer (st : state) (ev : event) (st' : state) :
  one_timer st → calm st ev = true → step st ev = Some st' → one_timer st'.
Proof.
  intros Hinv Hc Hs. destruct ev as [d|i|k|new_min icon_bound|]; simpl in Hs.
  - destruct (Qle_bool 0 d); [|discriminate]. injection Hs as <-. exact Hinv.
  - unfold fire in Hs. destruct Hinv as [H1 Hh].
    destruct (timers st !! i) as [t|] eqn:Ei; [|discriminate].
    destruct (is_armed t && due t (clock st)) eqn:Eg; [|discriminate].
    apply andb_prop in Eg as [Ea _]. injection Hs as <-. split.
    + unfold live_count, armed_count in *. simpl. rewrite count_app. simpl.
      pose proof (count_insert is_armed (timers st) i
                    {| interval := interval t; fire_at := fire_at t;
                       status := Fired |} t Ei) as Hi.
      rewrite Ea in Hi. simpl in Hi. lia.
    + simpl. intros j t' Hj Ha. destruct (decide (i = j)) as [->|Hne].
      * rewrite list_lookup_insert_eq in Hj by (eapply lookup_lt_Some; eauto).
        injection Hj as <-. discriminate Ha.
      * rewrite list_lookup_insert_ne in Hj by exact Hne. exact (Hh j t' Hj Ha).
  - unfold run_thread in Hs.
    destruct (threads st !! k) as [[| |wake| |b| |ci|ci| | |]|] eqn:Ek;
      try discriminate.
    + injection Hs as <-.
      destruct (replace_thread_one_timer st k CbSend CbGuard Hinv Ek eq_refl)
        as [H1 Hh].
      split; [exact H1 | exact Hh].
    + destruct (running st); injection Hs as <-.
      * destruct Hinv as [H1 Hh]. split; [|exact Hh].
        unfold live_count, armed_count in *. simpl. rewrite count_app. simpl.
        pose proof (count_insert is_live (threads st) k Done CbGuard Ek) as Hi.
        simpl in Hi. lia.
      * exact (replace_thread_one_timer st k CbGuard Done Hinv Ek eq_refl).
    + destruct (Qle_bool wake (clock st)); [|discriminate]. injection Hs as <-.
      exact (replace_thread_one_timer st k (DrSleep wake) DrGuard Hinv Ek eq_refl).
    + destruct (running st); injection Hs as <-.
      * exact (replace_thread_one_timer st k DrGuard Sched Hinv Ek eq_refl).
      * exact (replace_thread_one_timer st k DrGuard Done Hinv Ek eq_refl).
    + injection Hs as <-.
      exact (replace_thread_one_timer st k (NewTimer b) _ Hinv Ek eq_refl).
    + injection Hs as <-.
      exact (replace_thread_one_timer st k Sched _ Hinv Ek eq_refl).
    + injection Hs as <-. apply set_next_one_timer.
      exact (replace_thread_one_timer st k (SchedNext ci) _ Hinv Ek eq_refl).
    + injection Hs as <-. exact (create_one_timer st k ci Hinv Ek).
    + injection Hs as <-.
      exact (replace_thread_one_timer st k SchedDaemon _ Hinv Ek eq_refl).
    + injection Hs as <-. exact (start_timer_one_timer st k Hinv Ek).
  - injection Hs as <-. destruct Hinv as [H1 Hh]. simpl in Hc.
    apply calm_threads in Hc.
    pose proof (cancel_handle_clears (timer st) (timers st) Hh) as H0.
    split.
    + unfold live_count, armed_count in *. simpl. rewrite count_app, Hc, H0.
      simpl. lia.
    + simpl. intros i t Hi Ha.
      rewrite (count_zero_lookup is_armed _ i t H0 Hi) in Ha. discriminate.
  - injection Hs as <-. destruct Hinv as [H1 Hh].
    pose proof (cancel_handle_clears (timer st) (timers st) Hh) as H0.
    split.
    + unfold live_count, armed_count in *. simpl. rewrite H0. lia.
    + simpl. intros i t Hi Ha.
      rewrite (count_zero_lookup is_armed _ i t H0 Hi) in Ha. discriminate.
Qed.

Lemma run_calm_one_timer (evs : list event) (st st' : state) :
  one_timer st → run_calm st evs = Some st' → one_timer st'.
Proof.
  revert st. induction evs as [|ev evs IH]; intros st Hinv Hr; simpl in Hr.
  - injection Hr as <-. exact Hinv.
  - destruct (calm st ev) eqn:Hc; [|discriminate].
    destruct (step st ev) as [st1|] eqn:Hs; [|discriminate].
    exact (IH st1 (step_one_timer st ev st1 Hinv Hc Hs) Hr).
Qed.

Lemma run_calm_run (evs : list event) (st st' : state) :
  run_calm st evs = Some st' → run st evs = Some st'.
Proof.
  revert st. induction evs as [|ev evs IH]; intros st Hr; simpl in *; [exact Hr|].
  destruct (calm st ev); [|discriminate].
  destruct (step st ev) as [st1|]; [exact (IH st1 Hr) | discriminate].
Qed.

(** *** One notification per firing *)

Lemma cancel_handle_fired (h : option nat) (ts : list timer_obj) :
  count is_fired (cancel_handle h ts) = count is_fired ts.
Proof. apply at_handle_count, cancel_fired. Qed.

Lemma start_handle_fired (h : option nat) (now : Q) (ts : list timer_obj) :
  count is_fired (start_handle h now ts) = count is_fired ts.
Proof. apply at_handle_count, start_fired. Qed.

Lemma replace_thread_sent (st : state) (k : nat) (a b : task) :
  sent_fired st → threads st !! k = Some a →
  is_cbsend a = false → is_cbsend b = false →
  sent_fired (set_threads st (<[k := b]> (threads st))).
Proof.
  unfold sent_fired. simpl. intros H Hk Ha Hb.
  pose proof (count_insert is_cbsend (threads st) k b a Hk) as Hc.
  rewrite Ha, Hb in Hc. lia.
Qed.

Lemma step_sent_fired (st : state) (ev : event) (st' : state) :
  sent_fired st → step st ev = Some st' → sent_fired st'.
Proof.
  intros Hinv Hs. destruct ev as [d|i|k|new_min icon_bound|]; simpl in Hs.
  - destruct (Qle_bool 0 d); [|discriminate]. injection Hs as <-. exact Hinv.
  - unfold fire in Hs.
    destruct (timers st !! i) as [t|] eqn:Ei; [|discriminate].
    destruct (is_armed t && due t (clock st)) eqn:Eg; [|discriminate].
    apply andb_prop in Eg as [Ea _]. injection Hs as <-.
    unfold sent_fired in *. simpl. rewrite count_app. simpl.
    pose proof (count_insert is_fired (timers st) i
                  {| interval := interval t; fire_at := fire_at t;
                     status := Fired |} t Ei) as Hi.
    assert (Hf : is_fired t = false)
      by (unfold is_armed, is_fired in *; destruct (status t); congruence).
    rewrite Hf in Hi. simpl in Hi. lia.
  - unfold run_thread in Hs.
    destruct (threads st !! k) as [[| |wake| |b| |ci|ci| | |]|] eqn:Ek;
      try discriminate.
    + injection Hs as <-. unfold sent_fired in *. simpl.
      pose proof (count_insert is_cbsend (threads st) k CbGuard CbSend Ek) as Hi.
      simpl in Hi. lia.
    + destruct (running st); injection Hs as <-.
      * pose proof (replace_thread_sent st k CbGuard Done Hinv Ek eq_refl eq_refl)
          as H.
        unfold sent_fired in *. simpl in *. rewrite count_app. simpl. lia.
      * exact (replace_thread_sent st k CbGuard Done Hinv Ek eq_refl eq_refl).
    + destruct (Qle_bool wake (clock st)); [|discriminate]. injection Hs as <-.
      exact (replace_thread_sent st k (DrSleep wake) DrGuard Hinv Ek eq_refl eq_refl).
    + destruct (running st); injection Hs as <-.
      * exact (replace_thread_sent st k DrGuard Sched Hinv Ek eq_refl eq_refl).
      * exact (replace_thread_sent st k DrGuard Done Hinv Ek eq_refl eq_refl).
    + injection Hs as <-.
      apply (replace_thread_sent st k (NewTimer b)); auto. now destruct b.
    + injection Hs as <-.
      exact (replace_thread_sent st k Sched (SchedNext (interval_sec st)) Hinv Ek
               eq_refl eq_refl).
    + injection Hs as <-.
      exact (replace_thread_sent st k (SchedNext ci) (SchedTimer ci) Hinv Ek
               eq_refl eq_refl).
    + injection Hs as <-.
      pose proof (replace_thread_sent st k (SchedTimer ci) SchedDaemon Hinv Ek
                    eq_refl eq_refl) as H.
      unfold sent_fired in *. simpl in *. rewrite count_app. simpl. lia.
    + injection Hs as <-.
      apply (replace_thread_sent st k SchedDaemon); auto.
      now destruct (daemon_ok st).
    + injection Hs as <-.
      pose proof (replace_thread_sent st k SchedStart Done Hinv Ek eq_refl eq_refl)
        as H.
      unfold sent_fired in *. simpl in *. now rewrite start_handle_fired.
  - injection Hs as <-. unfold sent_fired in *. simpl.
    rewrite count_app, cancel_handle_fired. simpl. lia.
  - injection Hs as <-. unfold sent_fired in *. simpl.
    rewrite cancel_handle_fired. exact Hinv.
Qed.

Lemma run_sent_fired (evs : list event) (st st' : state) :
  sent_fired st → run st evs = Some st' → sent_fired st'.
Proof.
  revert st. induction evs as [|ev evs IH]; intros st Hinv Hr; simpl in Hr.
  - injection Hr as <-. exact Hinv.
  - destruct (step st ev) as [st1|] eqn:Hs; [|discriminate].
    exact (IH st1 (step_sent_fired st ev st1 Hinv Hs) Hr).
Qed.

(** [schedule_notification] leaves every earlier timer as it was. *)
Lemma schedule_notification_keeps (st : state) :
  timers (schedule_notification st)
  = timers st ++ [ {| interval := interval_sec st;
                      fire_at := Some (clock st + interval_sec st)%Q;
                      status := Armed |} ] ∧
  armed_count (schedule_notification st) = S (armed_count st).
Proof.
  rewrite schedule_notification_scheduled.
  split; [reflexivity|]. unfold armed_count. simpl. rewrite count_app. simpl. lia.
Qed.

(** C1, amended. [schedule_notification] cancels nothing; the reset of
    [apply_settings] cancels the timer held in [timer] before it starts
    the thread that schedules the new one. In every execution from startup
    in which no reset is applied while a background thread is pending (a
    fire callback on its way to the re-arm, or the thread of an earlier
    reset), at every instant at most one timer is outstanding, it is the
    one held in [timer], no thread is pending while it is outstanding, a
    reset leaves no timer outstanding before the new one is scheduled, and
    no more notifications have been sent than timers have fired. *)
Theorem calm_rearm_one_timer (now interval : Q) (evs : list event) (st : state) :
  run_calm (start now interval) evs = Some st →
  armed_count st ≤ 1 ∧
  (∀ (i : nat) (t : timer_obj),
     timers st !! i = Some t → is_armed t = true → timer st = Some i) ∧
  live_count st + armed_count st ≤ 1 ∧
  (∀ (new_min : Q) (icon_bound : bool),
     armed_count (apply_reset new_min icon_bound st) = 0) ∧
  armed_count (shutdown st) = 0 ∧
  sent st ≤ count is_fired (timers st).
Proof.
  intros Hr.
  destruct (run_calm_one_timer evs _ st (start_one_timer now interval) Hr) as [H1 Hh].
  assert (Hs : sent_fired st).
  { apply (run_sent_fired evs (start now interval)); [reflexivity|].
    apply run_calm_run, Hr. }
  split; [lia|]. split; [exact Hh|]. split; [exact H1|].
  split; [|split].
  - intros new_min icon_bound. unfold armed_count. simpl.
    apply cancel_handle_clears, Hh.
  - unfold armed_count. simpl. apply cancel_handle_clears, Hh.
  - unfold sent_fired in Hs. lia.
Qed.

(** C1 at a sample: an hour of normal operation, then a reset. *)
Lemma calm_rearm_one_timer_witness :
  ∃ st : state,
    run_calm (start 0 3600) calm_hour = Some st ∧
    armed_count st ≤ 1 ∧
    (∀ (i : nat) (t : timer_obj),
       timers st !! i = Some t → is_armed t = true → timer st = Some i) ∧
    live_count st + armed_count st ≤ 1 ∧
    (∀ (new_min : Q) (icon_bound : bool),
       armed_count (apply_reset new_min icon_bound st) = 0) ∧
    armed_count (shutdown st) = 0 ∧
    sent st ≤ count is_fired (timers st).
Proof.
  destruct (run_calm (start 0 3600) calm_hour) as [st|] eqn:E;
    [|vm_compute in E; discriminate].
  exists st. split; [reflexivity|].
  exact (calm_rearm_one_timer 0 3600 calm_hour st E).
Defined.

(** C1 as stated fails: the user applies new settings within the 0.1 s
    between a notification and its delayed re-arm. Both the thread of the
    reset and the delayed thread call [schedule_notification], which
    cancels nothing: two timers are outstanding, after one notification. *)
Lemma reset_race_two_timers :
  ∃ st : state,
    run (start 0 3600) race_reset = Some st ∧
    armed_count st = 2 ∧
    sent st = 1 ∧
    running st = true.
Proof.
  destruct (run (start 0 3600) race_reset) as [st|] eqn:E;
    [|vm_compute in E; discriminate].
  exists st. split; [reflexivity|].
  vm_compute in E. injection E as <-. repeat split.
Qed.

(** *** A reset replaces the timer *)

Lemma cancel_handle_lookup_Some (h : option nat) (ts : list timer_obj) (i : nat)
    (t : timer_obj) :
  ts !! i = Some t →
  ∃ t', cancel_handle h ts !! i = Some t' ∧ (t' = t ∨ t' = cancel t).
Proof. apply at_handle_lookup_Some. Qed.

Lemma at_handle_spent (f : timer_obj → timer_obj) (h : option nat)
    (ts : list timer_obj) (i : nat) (t : timer_obj) :
  (∀ t0, is_spent t0 = true → is_spent (f t0) = true) →
  ts !! i = Some t → is_spent t = true →
  ∃ t', at_handle f h ts !! i = Some t' ∧ is_spent t' = true.
Proof.
  intros Hf Hi Hs.
  destruct (at_handle_lookup_Some f h ts i t Hi) as (t' & H' & [->| ->]); eauto.
Qed.

(** A cancelled or fired timer stays so, whatever happens next. *)
Lemma step_spent (i : nat) (st : state) (ev : event) (st' : state) :
  spent i st → step st ev = Some st' → spent i st'.
Proof.
  intros (t & Hi & Ha) Hs.
  assert (Hc : ∀ h, ∃ t', cancel_handle h (timers st) !! i = Some t' ∧
                          is_spent t' = true).
  { intros h. apply (at_handle_spent cancel h _ i t); auto using cancel_spent. }
  destruct ev as [d|j|k|new_min icon_bound|]; simpl in Hs.
  - destruct (Qle_bool 0 d); [|discriminate]. injection Hs as <-. exists t. auto.
  - unfold fire in Hs.
    destruct (timers st !! j) as [tj|] eqn:Ej; [|discriminate].
    destruct (is_armed tj && due tj (clock st)); [|discriminate].
    injection Hs as <-. unfold spent. simpl.
    destruct (decide (j = i)) as [->|Hne].
    + rewrite list_lookup_insert_eq by (eapply lookup_lt_Some; eauto). eauto.
    + rewrite list_lookup_insert_ne by exact Hne. eauto.
  - unfold run_thread in Hs.
    destruct (threads st !! k) as [[| |wake| |b| |ci|ci| | |]|]; try discriminate.
    + injection Hs as <-. exists t. auto.
    + destruct (running st); injection Hs as <-; exists t; auto.
    + destruct (Qle_bool wake (clock st)); [|discriminate].
      injection Hs as <-. exists t. auto.
    + destruct (running st); injection Hs as <-; exists t; auto.
    + injection Hs as <-. exists t. auto.
    + injection Hs as <-. exists t. auto.
    + injection Hs as <-. exists t. auto.
    + injection Hs as <-. exists t. simpl. split; [|exact Ha].
      rewrite lookup_app_l by (eapply lookup_lt_Some; eauto). exact Hi.
    + injection Hs as <-. exists t. auto.
    + injection Hs as <-. unfold spent. simpl.
      apply (at_handle_spent (timer_start (clock st)) (timer st) _ i t); auto.
      intros t0. now rewrite start_spent.
  - injection Hs as <-. apply Hc.
  - injection Hs as <-. apply Hc.
Qed.

Lemma run_spent (i : nat) (evs : list event) (st st' : state) :
  spent i st → run st evs = Some st' → spent i st'.
Proof.
  revert st. induction evs as [|ev evs IH]; intros st Hsp Hr; simpl in Hr.
  - injection Hr as <-. exact Hsp.
  - destruct (step st ev) as [st1|] eqn:Hs; [|discriminate].
    exact (IH st1 (step_spent i st ev st1 Hsp Hs) Hr).
Qed.

Lemma spent_never_fires (i : nat) (st : state) : spent i st → fire i st = None.
Proof.
  intros (t & Hi & Ha). unfold fire. rewrite Hi.
  assert (is_armed t = false) as ->; [|reflexivity].
  unfold is_spent, is_armed in *. destruct (status t); congruence.
Qed.

(** With no timer outstanding and no thread pending, nothing but the
    clock moves until the main thread acts again. *)
Lemma step_idle (st : state) (ev : event) (st' : state) :
  armed_count st = 0 → live_count st = 0 →
  background ev = true → step st ev = Some st' →
  armed_count st' = 0 ∧ live_count st' = 0 ∧
  sent st' = sent st ∧ timers st' = timers st ∧ threads st' = threads st.
Proof.
  intros Ha Hl Hb Hs. destruct ev as [d|i|k|new_min icon_bound|]; simpl in Hs;
    try discriminate.
  - destruct (Qle_bool 0 d); [|discriminate]. injection Hs as <-. auto.
  - unfold fire in Hs. destruct (timers st !! i) as [t|] eqn:Ei; [|discriminate].
    rewrite (count_zero_lookup is_armed _ i t Ha Ei) in Hs. discriminate.
  - unfold run_thread in Hs. destruct (threads st !! k) as [a|] eqn:Ek; [|discriminate].
    pose proof (count_zero_lookup is_live _ k a Hl Ek) as Hd.
    destruct a; try discriminate.
Qed.

Lemma run_idle (evs : list event) (st st' : state) :
  armed_count st = 0 → live_count st = 0 →
  forallb background evs = true → run st evs = Some st' →
  armed_count st' = 0 ∧ live_count st' = 0 ∧
  sent st' = sent st ∧ timers st' = timers st ∧ threads st' = threads st.
Proof.
  revert st. induction evs as [|ev evs IH]; intros st Ha Hl Hb Hr; simpl in *.
  - injection Hr as <-. auto.
  - apply andb_prop in Hb as [Hb1 Hb2].
    destruct (step st ev) as [st1|] eqn:Hs; [|discriminate].
    destruct (step_idle st ev st1 Ha Hl Hb1 Hs) as (Ha1 & Hl1 & Hs1 & Ht1 & Hth1).
    destruct (IH st1 Ha1 Hl1 Hb2 Hr) as (Ha' & Hl' & Hs' & Ht' & Hth').
    repeat split; congruence.
Qed.

(** C2, at the input on which the code departs from it. The timer of
    startup is outstanding. The settings dialog is opened while
    [get_icon_abs_path] raises, so the local [icon_path] of
    [create_settings_window] stays unbound; the user applies [new_min]
    minutes. The handler cancels the timer and sets the interval; its
    thread [start_new_timer] raises [NameError] at
    [schedule_notification(title, message, icon_path)], which is logged:
    no timer is created, [next_run_time] keeps the due time of the
    cancelled timer, and whatever the threads and the clock do afterwards,
    nothing fires and no notification is sent, although [running] is
    set. *)
Theorem reset_without_icon_arms_nothing (now interval new_min : Q) :
  ∃ st' : state,
    run (start now interval) [Apply new_min false; Run 0] = Some st' ∧
    timers st'
      = [ {| interval := interval; fire_at := Some (now + interval)%Q;
             status := Cancelled |} ] ∧
    threads st' = [Done] ∧
    interval_sec st' = (new_min * 60)%Q ∧
    next_run_time st' = Some (now + interval)%Q ∧
    running st' = true ∧
    ∀ (evs : list event) (st'' : state),
      forallb background evs = true → run st' evs = Some st'' →
      sent st'' = 0 ∧ armed_count st'' = 0 ∧ timers st'' = timers st'.
Proof.
  set (st' := {| clock := now;
                 timers := [ {| interval := interval;
                                fire_at := Some (now + interval)%Q;
                                status := Cancelled |} ];
                 timer := Some 0; interval_sec := (new_min * 60)%Q;
                 next_run_time := Some (now + interval)%Q;
                 running := true; threads := [Done]; sent := 0 |}).
  exists st'. split; [reflexivity|].
  repeat (split; [reflexivity|]).
  intros evs st'' Hb Hr.
  destruct (run_idle evs st' st'' eq_refl eq_refl Hb Hr) as (Ha & _ & Hs & Ht & _).
  auto.
Qed.

(** The reset with [icon_path] bound. The timer held in [timer] is
    outstanding. The user applies the interval [new_min] minutes,
    [T2 = new_min * 60] seconds: the handler cancels the old timer, sets
    [interval_sec] to [T2] and starts the thread that calls
    [schedule_notification], which runs [d >= 0] seconds later, at time
    [now], without interruption. Then [next_run_time] is [now + T2]; the
    new timer is held in [timer] and due at [now + T2]: it can fire after
    [e] more seconds exactly when [T2 <= e]; the old timer never fires;
    and when the old timer was the only outstanding one, so is the new
    one. *)
Lemma reset_rearms (st : state) (i : nat) (t : timer_obj) (new_min d : Q) :
  timer st = Some i →
  timers st !! i = Some t →
  is_armed t = true →
  (0 <= d)%Q →
  let T2 := (new_min * 60)%Q in
  let now := (clock st + d)%Q in
  let new := length (timers st) in
  ∃ st' : state,
    run st (Apply new_min true :: Tick d :: new_timer_steps (length (threads st)))
      = Some st' ∧
    interval_sec st' = T2 ∧
    next_run_time st' = Some (now + T2)%Q ∧
    timer st' = Some new ∧
    timers st'
      = <[i := cancel t]> (timers st)
        ++ [ {| interval := T2; fire_at := Some (now + T2)%Q; status := Armed |} ] ∧
    (∀ e : Q, (0 <= e)%Q →
       (is_Some (run st' [Tick e; Fire new]) ↔ (T2 <= e)%Q)) ∧
    (∀ (evs : list event) (st'' : state),
       run st' evs = Some st'' → fire i st'' = None) ∧
    ((∀ (j : nat) (tj : timer_obj),
        timers st !! j = Some tj → is_armed tj = true → j = i) →
     ∀ (j : nat) (tj : timer_obj),
       timers st' !! j = Some tj → is_armed tj = true → j = new).
Proof.
  intros Hh Hi Ha Hd T2 now new.
  assert (Hlt : i < length (timers st)) by (eapply lookup_lt_Some; eauto).
  apply Qle_bool_iff in Hd.
  eexists. split.
  { cbn [run step]. rewrite Hd.
    rewrite run_new_timer_steps by (cbn; apply lookup_snoc). reflexivity. }
  cbn. unfold cancel_handle. rewrite Hh, (at_handle_here cancel i _ t Hi).
  rewrite insert_snoc.
  split; [reflexivity|]. split; [reflexivity|].
  split; [now rewrite length_insert|]. split; [reflexivity|].
  split; [|split].
  - intros e He. apply Qle_bool_iff in He. rewrite He. unfold fire. cbn.
    rewrite lookup_app_r by (rewrite length_insert; unfold new; lia).
    rewrite length_insert. unfold new. rewrite Nat.sub_diag. cbn.
    destruct (Qle_bool (clock st + d + new_min * 60) (clock st + d + e)) eqn:E.
    + apply Qle_bool_iff in E. apply Qplus_le_r in E. split; [intros _; exact E | eauto].
    + split; [intros [x Hx]; discriminate|]. intros Hle.
      assert (E' : Qle_bool (clock st + d + new_min * 60) (clock st + d + e) = true).
      { apply Qle_bool_iff. apply Qplus_le_r. exact Hle. }
      congruence.
  - intros evs st'' Hr. apply spent_never_fires.
    refine (run_spent i evs _ st'' _ Hr).
    exists (cancel t). cbn. split; [|apply cancel_spent].
    rewrite lookup_app_l by (rewrite length_insert; exact Hlt).
    now rewrite list_lookup_insert_eq by exact Hlt.
  - intros Hu j tj Hj Haj.
    destruct (decide (j < length (timers st))) as [Hjl|Hjl].
    + rewrite lookup_app_l in Hj by (rewrite length_insert; exact Hjl).
      destruct (decide (i = j)) as [->|Hne].
      * rewrite list_lookup_insert_eq in Hj by exact Hlt.
        injection Hj as <-. rewrite cancel_not_armed in Haj. discriminate.
      * rewrite list_lookup_insert_ne in Hj by exact Hne.
        destruct Hne. symmetry. exact (Hu j tj Hj Haj).
    + destruct (decide (j = length (timers st))) as [->|Hne]; [reflexivity|].
      rewrite lookup_ge_None_2 in Hj; [discriminate|].
      rewrite length_app, length_insert. simpl. lia.
Qed.

(** In the two-timer state of the reset race, a further reset cancels
    only the timer held in [timer]: the other one stays outstanding. *)
Lemma reset_after_race_keeps_orphan :
  ∃ st st' : state,
    run (start 0 3600) race_reset = Some st ∧
    run st (Apply 10 true :: new_timer_steps 3) = Some st' ∧
    armed_count st' = 2.
Proof.
  destruct (run (start 0 3600) race_reset) as [st|] eqn:E;
    [|vm_compute in E; discriminate].
  exists st. vm_compute in E. injection E as <-.
  eexists. split; [reflexivity|]. split; reflexivity.
Qed.

(** *** After the exit *)

Lemma shutdown_idempotent (st : state) : shutdown (shutdown st) = shutdown st.
Proof. reflexivity. Qed.

Lemma replace_thread_stopped (st : state) (k : nat) (a b : task) :
  stopped st → threads st !! k = Some a → is_sched b = false →
  stopped (set_threads st (<[k := b]> (threads st))).
Proof.
  intros [Hr H0] Hk Hb. split; [exact Hr|]. simpl.
  pose proof (count_insert is_sched (threads st) k b a Hk) as Hc.
  rewrite (count_zero_lookup is_sched _ k a H0 Hk), Hb in Hc. lia.
Qed.

(** Once stopped, a step of a thread or of the clock creates no timer,
    leaves [timer] alone and keeps the program stopped. *)
Lemma step_stopped (st : state) (ev : event) (st' : state) :
  stopped st → background ev = true → step st ev = Some st' →
  stopped st' ∧
  length (timers st') = length (timers st) ∧
  timer st' = timer st ∧
  armed_count st' ≤ armed_count st.
Proof.
  intros Hst Hb Hs. destruct ev as [d|i|k|new_min icon_bound|]; simpl in Hs;
    try discriminate.
  - destruct (Qle_bool 0 d); [|discriminate]. injection Hs as <-.
    repeat split; try apply Hst. reflexivity.
  - unfold fire in Hs.
    destruct (timers st !! i) as [t|] eqn:Ei; [|discriminate].
    destruct (is_armed t && due t (clock st)) eqn:Eg; [|discriminate].
    apply andb_prop in Eg as [Ea _]. injection Hs as <-.
    destruct Hst as [Hr H0]. unfold stopped, armed_count. simpl.
    rewrite count_app, H0, length_insert.
    pose proof (count_insert is_armed (timers st) i
                  {| interval := interval t; fire_at := fire_at t;
                     status := Fired |} t Ei) as Hi.
    rewrite Ea in Hi. simpl in Hi. simpl. repeat split; auto; lia.
  - unfold run_thread in Hs. pose proof Hst as [Hr H0].
    destruct (threads st !! k) as [a|] eqn:Ek; [|discriminate].
    pose proof (count_zero_lookup is_sched _ k a H0 Ek) as Hns.
    destruct a as [| |wake| |b| |ci|ci| | |]; try discriminate.
    + injection Hs as <-.
      destruct (replace_thread_stopped st k CbSend CbGuard Hst Ek eq_refl)
        as [Hr' H0'].
      repeat split; auto.
    + rewrite Hr in Hs. injection Hs as <-.
      pose proof (replace_thread_stopped st k CbGuard Done Hst Ek eq_refl).
      repeat split; auto; apply H.
    + destruct (Qle_bool wake (clock st)); [|discriminate]. injection Hs as <-.
      pose proof (replace_thread_stopped st k (DrSleep wake) DrGuard Hst Ek eq_refl).
      repeat split; auto; apply H.
    + rewrite Hr in Hs. injection Hs as <-.
      pose proof (replace_thread_stopped st k DrGuard Done Hst Ek eq_refl).
      repeat split; auto; apply H.
    + simpl in Hns. subst b. injection Hs as <-.
      pose proof (replace_thread_stopped st k (NewTimer false) Done Hst Ek eq_refl).
      repeat split; auto; apply H.
Qed.

Lemma run_stopped (evs : list event) (st st' : state) :
  stopped st → forallb background evs = true → run st evs = Some st' →
  stopped st' ∧
  length (timers st') = length (timers st) ∧
  timer st' = timer st ∧
  armed_count st' ≤ armed_count st.
Proof.
  revert st. induction evs as [|ev evs IH]; intros st Hst Hb Hr; simpl in *.
  - injection Hr as <-. auto.
  - apply andb_prop in Hb as [Hb1 Hb2].
    destruct (step st ev) as [st1|] eqn:Hs; [|discriminate].
    destruct (step_stopped st ev st1 Hst Hb1 Hs) as (Hst1 & Hl1 & Ht1 & Ha1).
    destruct (IH st1 Hst1 Hb2 Hr) as (Hst' & Hl' & Ht' & Ha').
    repeat split; try apply Hst'; try congruence; lia.
Qed.

(** C3, amended. The exit clears [running], cancels the timer held in
    [timer] and clears [timer]; doing it twice is doing it once. If at
    that moment no thread stands past its last [running] check (no delayed
    re-arm between its [if running] and the end of
    [schedule_notification], and no thread of a reset, which checks
    nothing), then whatever the threads and timers do afterwards, no timer
    is created and [timer] stays [None]: a callback that reaches a guard
    finds [running] cleared and ends without scheduling; and when the
    timer held in [timer] was the only outstanding one, none is
    outstanding any more. *)
Theorem shutdown_stops_rearming (st : state) (evs : list event) (st' : state) :
  count is_sched (threads st) = 0 →
  forallb background evs = true →
  run (shutdown st) evs = Some st' →
  shutdown (shutdown st) = shutdown st ∧
  running st' = false ∧
  length (timers st') = length (timers st) ∧
  timer st' = None ∧
  count is_sched (threads st') = 0 ∧
  (∀ k : nat,
     threads st' !! k = Some CbGuard ∨ threads st' !! k = Some DrGuard →
     run_thread k st' = Some (set_threads st' (<[k := Done]> (threads st')))) ∧
  ((∀ (i : nat) (t : timer_obj),
      timers st !! i = Some t → is_armed t = true → timer st = Some i) →
   armed_count st' = 0).
Proof.
  intros H0 Hb Hr.
  assert (Hst : stopped (shutdown st)) by (split; [reflexivity | exact H0]).
  destruct (run_stopped evs (shutdown st) st' Hst Hb Hr) as ([Hr' H0'] & Hl & Ht & Ha).
  split; [reflexivity|]. split; [exact Hr'|].
  split; [rewrite Hl; apply length_cancel_handle|].
  split; [exact Ht|]. split; [exact H0'|]. split.
  - intros k [Hk|Hk]; unfold run_thread; rewrite Hk, Hr'; reflexivity.
  - intros Hh.
    pose proof (cancel_handle_clears (timer st) (timers st) Hh) as Hc.
    unfold armed_count in *. simpl in Ha. lia.
Qed.

(** C3 at a sample: the exit arrives while the delayed thread of the
    first notification sleeps; the thread then wakes up, reads [running]
    and ends. *)
Lemma shutdown_stops_rearming_witness :
  ∃ st st' : state,
    run (start 0 3600) first_notification = Some st ∧
    run (shutdown st) [Tick 1; Run 1; Run 1] = Some st' ∧
    running st' = false ∧
    length (timers st') = length (timers st) ∧
    timer st' = None ∧
    count is_sched (threads st') = 0 ∧
    armed_count st' = 0.
Proof.
  destruct (run (start 0 3600) first_notification) as [st|] eqn:E;
    [|vm_compute in E; discriminate].
  exists st.
  assert (H0 : count is_sched (threads st) = 0)
    by (vm_compute in E; injection E as <-; reflexivity).
  assert (Hh : ∀ (i : nat) (t : timer_obj),
             timers st !! i = Some t → is_armed t = true → timer st = Some i).
  { vm_compute in E. injection E as <-.
    intros [|i] t H Hi; [reflexivity | discriminate]. }
  destruct (run (shutdown st) [Tick 1; Run 1; Run 1]) as [st'|] eqn:E';
    [|vm_compute in E; injection E as <-; vm_compute in E'; discriminate].
  exists st'. split; [reflexivity|]. split; [reflexivity|].
  destruct (shutdown_stops_rearming st [Tick 1; Run 1; Run 1] st' H0 eq_refl E')
    as (_ & Hr & Hl & Ht & Hs & _ & Ha).
  repeat split; try assumption. exact (Ha Hh).
Defined.

(** C3 as stated fails: the exit arrives after the delayed thread has
    read [running] and before it calls [schedule_notification]; the thread
    then creates and starts a timer although [running] is cleared and the
    old timer is cancelled. *)
Lemma exit_race_rearms :
  ∃ st st' : state,
    run (start 0 3600) race_exit = Some st ∧
    running st = false ∧ timer st = None ∧ armed_count st = 0 ∧
    run st (schedule_steps 1) = Some st' ∧
    running st' = false ∧ timer st' = Some 1 ∧ armed_count st' = 1 ∧
    length (timers st') = S (length (timers st)).
Proof.
  destruct (run (start 0 3600) race_exit) as [st|] eqn:E;
    [|vm_compute in E; discriminate].
  exists st.
  destruct (run st (schedule_steps 1)) as [st'|] eqn:E';
    [|vm_compute in E; injection E as <-; vm_compute in E'; discriminate].
  exists st'. split; [reflexivity|].
  vm_compute in E. injection E as <-.
  vm_compute in E'. injection E' as <-.
  repeat split.
Qed.

End SchedulerProps.

(** ** The countdown label *)

Module CountdownProps.
Import Countdown.

(** The seconds shown are the whole seconds of the time left, and zero
    when none is left. *)
Lemma remaining_floor (next now : Q) :
  remaining next now = Qfloor (Qmax 0 (next - now)).
Proof.
  unfold remaining, py_int.
  destruct (Qle_bool 0 (next - now)) eqn:E.
  - apply Qle_bool_iff in E.
    rewrite (Qfloor_comp _ _ (Q.max_r 0 (next - now) E)).
    pose proof (Qfloor_resp_le 0 (next - now) E) as H0.
    change (Qfloor 0) with 0%Z in H0.
    destruct (Z.ltb_spec (Qfloor (next - now)) 0); [lia | reflexivity].
  - apply Basics.Qle_bool_false_iff in E.
    rewrite (Qfloor_comp _ _ (Q.max_l 0 (next - now) (Qlt_le_weak _ _ E))).
    pose proof (Qceiling_resp_le (next - now) 0 (Qlt_le_weak _ _ E)) as H0.
    change (Qceiling 0) with 0%Z in H0. change (Qfloor 0) with 0%Z.
    destruct (Z.ltb_spec (Qceiling (next - now)) 0); [reflexivity | lia].
Qed.

(** C7, amended. The time shown by [update_countdown] is never
    negative: it is [max(0, next_run_time - now)] cut down to whole seconds
    (the largest integer not above it), shown as minutes and seconds, and
    it is 0 once the fire time has passed (and during the last second
    before it). *)
Theorem remaining_spec (next now : Q) :
  (0 <= remaining next now)%Z ∧
  remaining next now = Z.max 0 (py_int (next - now)) ∧
  remaining next now = Qfloor (Qmax 0 (next - now)) ∧
  (inject_Z (remaining next now) <= Qmax 0 (next - now))%Q ∧
  (Qmax 0 (next - now) < inject_Z (remaining next now + 1))%Q ∧
  ((next <= now)%Q → remaining next now = 0%Z) ∧
  update_countdown (Some next) now
    = (if Qeq_bool next 0 then None
       else Some ((remaining next now / 60)%Z, (remaining next now mod 60)%Z)).
Proof.
  pose proof (remaining_floor next now) as Hf.
  split; [|split; [|split; [|split; [|split; [|split]]]]].
  - rewrite Hf. change 0%Z with (Qfloor 0). apply Qfloor_resp_le, Q.le_max_l.
  - unfold remaining.
    destruct (Z.ltb_spec (py_int (next - now)) 0); lia.
  - exact Hf.
  - rewrite Hf. apply Qfloor_le.
  - rewrite Hf. apply Qlt_floor.
  - intros Hle. rewrite Hf.
    assert (H0 : (next - now <= 0)%Q).
    { apply (Qplus_le_l _ _ now). ring_simplify. exact Hle. }
    now rewrite (Qfloor_comp _ _ (Q.max_l 0 (next - now) H0)).
  - reflexivity.
Qed.

(** C7 at a sample: the fire time was a second and a half ago. *)
Lemma remaining_spec_witness :
  remaining 10 (23 # 2) = 0%Z.
Proof.
  destruct (remaining_spec 10 (23 # 2)) as (_ & _ & _ & _ & _ & H & _).
  apply H. discriminate.
Defined.

(** C7 as stated fails: two and a half seconds before the fire time the
    label shows 2 seconds, which is less than [max(0, 2.5)]. *)
Lemma remaining_truncates :
  remaining (5 # 2) 0 = 2%Z ∧
  update_countdown (Some (5 # 2)%Q) 0 = Some (0%Z, 2%Z) ∧
  (inject_Z (remaining (5 # 2) 0) < Qmax 0 ((5 # 2) - 0))%Q.
Proof. repeat split. Qed.

End CountdownProps.

(** ** The settings dialog *)

Module DialogProps.
Import Dialog Basics.






End DialogProps.

(** ** The tray menu and the command loop *)

Module TrayProps.
Import Tray.

Lemma dispatch_tray_command (c : string) :
  tray_command c → dispatch c ≠ BrToggleAutoStart.
Proof. intros [->| ->]; discriminate. Qed.

Lemma menu_posts_tray_command (i : nat) (callback : list string → list string)
    (q : list string) :
  menu !! i = Some callback →
  Forall tray_command q → Forall tray_command (callback q).
Proof.
  intros Hm Hq. destruct i as [|[|i]]; simpl in Hm.
  - injection Hm as <-. unfold on_open_settings.
    apply Forall_app. split; [exact Hq|]. constructor; [now left | constructor].
  - injection Hm as <-. unfold on_exit.
    apply Forall_app. split; [exact Hq|]. constructor; [now right | constructor].
  - rewrite lookup_nil in Hm. discriminate.
Qed.

Lemma step_tray_commands (l : loop) (ev : event) :
  Forall tray_command (command_queue l) →
  Forall (λ b, b ≠ BrToggleAutoStart) (taken l) →
  Forall tray_command (command_queue (step l ev)) ∧
  Forall (λ b, b ≠ BrToggleAutoStart) (taken (step l ev)).
Proof.
  intros Hq Ht. destruct ev as [i| |]; simpl.
  - destruct (menu !! i) as [callback|] eqn:Hm; [|auto].
    split; [exact (menu_posts_tray_command i callback _ Hm Hq) | exact Ht].
  - split; [|exact Ht]. unfold tray_failed. apply Forall_app. split; [exact Hq|].
    constructor; [now right | constructor].
  - destruct (running l); [|auto].
    destruct (command_queue l) as [|c q] eqn:Eq; [rewrite Eq; auto|].
    simpl. apply Forall_cons in Hq as [Hc Hq]. split; [exact Hq|].
    apply Forall_app. split; [exact Ht|].
    repeat constructor. exact (dispatch_tray_command c Hc).
Qed.

(** C10. The menu has two items, whose callbacks post [open_settings]
    and [exit]; the only other producer, the failure branch of the tray
    thread, posts [exit]. So in every execution of producers and of the
    command loop, every command in the queue is one of these two, and the
    [toggle_auto_start] branch of [process_commands] is never taken. *)
Theorem tray_never_toggles (evs : list event) :
  length menu = 2 ∧
  Forall tray_command (command_queue (fold_left step evs start)) ∧
  Forall (λ b, b ≠ BrToggleAutoStart) (taken (fold_left step evs start)).
Proof.
  split; [reflexivity|].
  assert (H : ∀ l,
             Forall tray_command (command_queue l) →
             Forall (λ b, b ≠ BrToggleAutoStart) (taken l) →
             Forall tray_command (command_queue (fold_left step evs l)) ∧
             Forall (λ b, b ≠ BrToggleAutoStart) (taken (fold_left step evs l))).
  { induction evs as [|ev evs IH]; intros l Hq Ht; simpl; [auto|].
    destruct (step_tray_commands l ev Hq Ht) as [Hq' Ht']. exact (IH _ Hq' Ht'). }
  apply H; constructor.
Qed.

(** The branch exists: a [toggle_auto_start] in the queue would take it. *)
Lemma dispatch_toggle : dispatch "toggle_auto_start" = BrToggleAutoStart.
Proof. reflexivity. Qed.

End TrayProps.

(** * Further properties *)

(** ** The settings store *)

Module SettingsMore.
Import Py Settings Basics SettingsProps.

Lemma py_float_exn (parse : string → option pyfloat) (raw : pyval) (e : exn) :
  py_float parse raw = Raise e →
  e = ValueError ∨ e = TypeError ∨ e = OverflowError.
Proof.
  destruct raw as [|b|z|f|s|l|d]; simpl; try (intros [= <-]; auto); try discriminate.
  - destruct (float_of_int z); [discriminate | intros [= <-]; auto].
  - destruct (parse s); [discriminate | intros [= <-]; auto].
Qed.

Section Validate.

Variable str_to_float : string → option pyfloat.

Lemma validate_interval_cases (raw : pyval) (f : pyfloat) :
  validate_interval str_to_float raw = Ret f →
  (py_float str_to_float raw = Ret NaN ∧ f = Fin tenth) ∨
  (∃ v : Q, py_float str_to_float raw = Ret (Fin v) ∧
            (0 < v)%Q ∧ (v <= 1440)%Q ∧
            f = Fin (if Qlt_bool tenth v then v else tenth)).
Proof.
  unfold validate_interval.
  destruct (py_float str_to_float raw) as [g|e] eqn:Eg.
  2:{ destruct (is_ValueError e || is_TypeError e); discriminate. }
  destruct g as [v| | |]; simpl; try discriminate.
  - destruct (Qle_bool v 0) eqn:E0; [discriminate|].
    destruct (Qlt_bool day_minutes v) eqn:E1; [discriminate|].
    unfold py_max. simpl. intros [= <-]. right. exists v.
    apply Qle_bool_false_iff in E0. apply Qlt_bool_false_iff in E1.
    repeat split; try assumption.
    destruct (Qlt_bool tenth v); reflexivity.
  - intros [= <-]. left. split; reflexivity.
Qed.

(** X1. [validate_interval] returns exactly in two cases: the input
    converts to nan, and the result is [0.1]; or it converts to a finite
    [v] with [0 < v <= 1440], and the result is [v] when [v > 0.1] and
    [0.1] otherwise. *)
Theorem validate_interval_returns (raw : pyval) (f : pyfloat) :
  validate_interval str_to_float raw = Ret f ↔
  (py_float str_to_float raw = Ret NaN ∧ f = Fin tenth) ∨
  (∃ v : Q, py_float str_to_float raw = Ret (Fin v) ∧
            (0 < v)%Q ∧ (v <= 1440)%Q ∧
            f = Fin (if Qlt_bool tenth v then v else tenth)).
Proof.
  split; [apply validate_interval_cases|].
  intros [[Hn ->]|(v & Hv & Hpos & Hle & ->)].
  - apply validate_interval_nan, Hn.
  - rewrite (validate_interval_finite str_to_float raw v Hv).
    destruct (Qle_bool v 0) eqn:E0.
    { apply Qle_bool_iff in E0. exfalso. exact (Qlt_not_le _ _ Hpos E0). }
    destruct (Qlt_bool day_minutes v) eqn:E1; [|reflexivity].
    apply Qlt_bool_iff in E1. exfalso. exact (Qlt_not_le _ _ E1 Hle).
Qed.

(** Validating an accepted value again returns it. *)
Lemma validate_interval_again (raw : pyval) (f : pyfloat) :
  validate_interval str_to_float raw = Ret f →
  validate_interval str_to_float (PFloat f) = Ret f.
Proof.
  intros H.
  destruct (validate_interval_range str_to_float raw f H) as (v & -> & Hlo & Hhi).
  rewrite (validate_interval_finite str_to_float (PFloat (Fin v)) v eq_refl).
  assert (Hpos : (0 < v)%Q).
  { apply Qlt_le_trans with tenth; [reflexivity | exact Hlo]. }
  destruct (Qle_bool v 0) eqn:E0.
  { apply Qle_bool_iff in E0. exfalso. exact (Qlt_not_le _ _ Hpos E0). }
  destruct (Qlt_bool day_minutes v) eqn:E1.
  { apply Qlt_bool_iff in E1. exfalso. exact (Qlt_not_le _ _ E1 Hhi). }
  destruct (Qlt_bool tenth v) eqn:E2; [reflexivity|].
  apply validate_interval_cases in H as [[_ [= ->]]|(w & _ & _ & _ & Hw)];
    [reflexivity|].
  injection Hw as ->. destruct (Qlt_bool tenth w) eqn:E3; [congruence | reflexivity].
Qed.

(** X2. Whatever [validate_interval] accepts is a finite number of
    minutes between [0.1] and [1440], and validating that number again
    returns it unchanged. *)
Theorem validate_interval_fixed_point (raw : pyval) (f : pyfloat) :
  validate_interval str_to_float raw = Ret f →
  (∃ v : Q, f = Fin v ∧ (1 # 10 <= v)%Q ∧ (v <= 1440)%Q) ∧
  validate_interval str_to_float (PFloat f) = Ret f.
Proof.
  intros H. split; [|exact (validate_interval_again raw f H)].
  destruct (validate_interval_range str_to_float raw f H) as (v & -> & Hlo & Hhi).
  exists v. auto.
Qed.

Lemma validate_interval_exn (raw : pyval) (e : exn) :
  validate_interval str_to_float raw = Raise e →
  (e = ValueError ∨ e = OverflowError) ∧
  (e = OverflowError ↔ py_float str_to_float raw = Raise OverflowError).
Proof.
  unfold validate_interval.
  destruct (py_float str_to_float raw) as [g|e'] eqn:Eg.
  - destruct (float_le g 0); [intros [= <-]|].
    { split; [auto|]. split; discriminate. }
    destruct (float_gt g day_minutes); [intros [= <-]|discriminate].
    split; [auto|]. split; discriminate.
  - destruct (py_float_exn str_to_float raw e' Eg) as [->|[->| ->]]; simpl;
      intros [= <-]; (split; [auto|]); split; try discriminate; reflexivity.
Qed.

(** X3. [validate_interval] raises [ValueError] or [OverflowError] and
    nothing else, and [OverflowError] exactly when [float] raised it (an
    int beyond the range of a double). *)
Theorem validate_interval_raises (raw : pyval) (e : exn) :
  validate_interval str_to_float raw = Raise e →
  (e = ValueError ∨ e = OverflowError) ∧
  (e = OverflowError ↔ py_float str_to_float raw = Raise OverflowError).
Proof. apply validate_interval_exn. Qed.

End Validate.

(** X2 at a sample: the int 60. *)
Lemma validate_interval_fixed_point_witness :
  (∃ v : Q, Fin 60 = Fin v ∧ (1 # 10 <= v)%Q ∧ (v <= 1440)%Q) ∧
  validate_interval (λ _, None) (PFloat (Fin 60)) = Ret (Fin 60).
Proof.
  apply (validate_interval_fixed_point (λ _, None) (PInt 60) (Fin 60)).
  reflexivity.
Defined.

(** X3 at a sample: ten to the power 400. *)
Lemma validate_interval_raises_witness :
  (OverflowError = ValueError ∨ OverflowError = OverflowError) ∧
  (OverflowError = OverflowError ↔
   py_float (λ _, None) (PInt (10 ^ 400)) = Raise OverflowError).
Proof.
  apply (validate_interval_raises (λ _, None) (PInt (10 ^ 400)) OverflowError).
  vm_compute. reflexivity.
Defined.

(** *** Loading and saving *)

Lemma dict_set_same (d : list (string * pyval)) (k : string) (v : pyval) :
  dict_lookup d k = Some v → dict_set d k v = d.
Proof.
  induction d as [|[k' v'] d IH]; simpl; [discriminate|].
  destruct (String.eqb k' k) eqn:E.
  - now intros [= ->].
  - intros H. now rewrite (IH H).
Qed.

Lemma dict_set_get_same (d : list (string * pyval)) (k : string) (dflt : pyval) :
  is_Some (dict_lookup d k) → dict_set d k (dict_get d k dflt) = d.
Proof.
  intros [v Hv]. unfold dict_get. rewrite Hv. now apply dict_set_same.
Qed.

Lemma dict_lookup_set_Some (d : list (string * pyval)) (k k' : string) (v : pyval) :
  is_Some (dict_lookup d k') → is_Some (dict_lookup (dict_set d k v) k').
Proof.
  intros H. destruct (String.eqb_spec k k') as [->|Hne].
  - rewrite dict_lookup_set_eq. eauto.
  - now rewrite dict_lookup_set_ne.
Qed.

(** Sixty times a number of minutes between [0.1] and [1440]. *)
Lemma seconds_bounds (v : Q) :
  (1 # 10 <= v)%Q → (v <= 1440)%Q → (6 <= v * 60)%Q ∧ (v * 60 <= 86400)%Q.
Proof.
  unfold Qle, Qmult. simpl. rewrite Pos.mul_1_r. lia.
Qed.

Section Load.

Variable str_to_float : string → option pyfloat.
Variable json_loads : string → result pyval.
Variable json_chunks : pyval → list string.
Variable encodes : string → bool.

Lemma load_config_cases (create_ok : bool) (f f' : option string)
    (cfg : list (string * pyval)) :
  load_config str_to_float json_loads json_chunks create_ok f = (Ret cfg, f') →
  cfg = default_config ∨
  ∃ (config : list (string * pyval)) (interval : pyfloat),
    validate_interval str_to_float (dict_get config "interval_min" (PInt 60))
      = Ret interval ∧
    cfg = fill_defaults config interval.
Proof.
  unfold load_config. destruct f as [text|].
  - destruct (json_loads text) as [[| | | | | |config]|e]; try discriminate.
    + destruct (validate_interval str_to_float _) as [i|e] eqn:Ev.
      * intros [= <- _]. right. eauto.
      * destruct (is_ValueError e); [intros [= <- _]; now left | discriminate].
    + destruct (is_ValueError e); [intros [= <- _]; now left | discriminate].
  - destruct create_ok; intros [= <- _]; now left.
Qed.

Lemma load_config_fields (create_ok : bool) (f f' : option string)
    (cfg : list (string * pyval)) (k : string) :
  load_config str_to_float json_loads json_chunks create_ok f = (Ret cfg, f') →
  In k (map fst default_config) → is_Some (dict_lookup cfg k).
Proof.
  intros H Hk. destruct (load_config_cases create_ok f f' cfg H)
    as [->|(config & i & _ & ->)].
  - simpl in Hk. destruct Hk as [<-|[<-|[<-|[<-|[<-|[]]]]]]; simpl; eauto.
  - simpl in Hk. destruct Hk as [<-|Hk].
    + rewrite fill_defaults_interval. eauto.
    + assert (∃ dflt, In (k, dflt) (tail default_config)) as [dflt Hd].
      { simpl. destruct Hk as [<-|[<-|[<-|[<-|[]]]]]; eauto 10. }
      rewrite (fill_defaults_field config i k dflt Hd). eauto.
Qed.

(** X4. [load_config] raises only on a present file, which it leaves as
    it is, and in three cases: reading the file raises an exception that
    is not a [ValueError] (the [RecursionError] of the decoder on a text
    nested too deep, for one), and that exception is the one raised; the
    document is not an object ([AttributeError]); or it is an object whose
    interval is an int beyond the range of a double ([OverflowError]). *)
Theorem load_config_raises (create_ok : bool) (f f' : option string) (e : exn) :
  load_config str_to_float json_loads json_chunks create_ok f = (Raise e, f') →
  f' = f ∧
  ∃ text : string,
    f = Some text ∧
    ((json_loads text = Raise e ∧ is_ValueError e = false) ∨
     (∃ doc : pyval,
        json_loads text = Ret doc ∧ (∀ d, doc ≠ PDict d) ∧ e = AttributeError) ∨
     (∃ d : list (string * pyval),
        json_loads text = Ret (PDict d) ∧ e = OverflowError ∧
        py_float str_to_float (dict_get d "interval_min" (PInt 60))
          = Raise OverflowError)).
Proof.
  unfold load_config. destruct f as [text|].
  2:{ destruct create_ok; discriminate. }
  destruct (json_loads text) as [doc|e0] eqn:Ed.
  2:{ destruct (is_ValueError e0) eqn:E0; [discriminate|].
      intros [= <- <-]. split; [reflexivity|]. exists text. auto. }
  destruct doc as [|b|z|g|s|l|d];
    try (intros [= <- <-]; split; [reflexivity|]; exists text;
         split; [reflexivity|]; right; left; eexists;
         split; [exact Ed|]; split; [discriminate | reflexivity]).
  destruct (validate_interval str_to_float _) as [i|e'] eqn:Ev; [discriminate|].
  destruct (is_ValueError e') eqn:Ee; [discriminate|].
  intros [= <- <-]. split; [reflexivity|]. exists text.
  split; [reflexivity|]. right. right. exists d.
  destruct (validate_interval_exn str_to_float _ e' Ev) as [[->| ->] Hiff];
    [discriminate|].
  split; [exact Ed|]. split; [reflexivity|]. now apply Hiff.
Qed.

(** X5. Every record that [load_config] returns, whatever the file,
    holds the five fields, and its interval is a number of minutes that
    gives between 6 and 86400 seconds; a file that was present is left as
    it is. *)
Theorem load_config_record (create_ok : bool) (f f' : option string)
    (cfg : list (string * pyval)) :
  load_config str_to_float json_loads json_chunks create_ok f = (Ret cfg, f') →
  (∀ k : string, In k (map fst default_config) → is_Some (dict_lookup cfg k)) ∧
  (∃ (minutes : pyval) (secs : Q),
     dict_lookup cfg "interval_min" = Some minutes ∧
     interval_seconds minutes = Some secs ∧
     (6 <= secs)%Q ∧ (secs <= 86400)%Q) ∧
  (∀ text : string, f = Some text → f' = f).
Proof.
  intros H. split; [|split].
  - intros k. exact (load_config_fields create_ok f f' cfg k H).
  - destruct (load_config_cases create_ok f f' cfg H) as [->|(config & i & Hv & ->)].
    + exists (PInt 60), 3600%Q. repeat split; discriminate.
    + destruct (validate_interval_range str_to_float _ i Hv) as (v & -> & Hlo & Hhi).
      exists (PFloat (Fin v)), (v * 60)%Q.
      split; [apply fill_defaults_interval|]. split; [reflexivity|].
      apply seconds_bounds; assumption.
  - intros text ->.
    exact (load_config_keeps str_to_float json_loads json_chunks _ _ _ _ H).
Qed.

(** How the write of the apply handler ends. *)
Lemma save_json_ret (open_ok : bool) (doc : pyval) (f f' : option string) :
  save_json json_chunks encodes open_ok doc f = (Ret tt, f') →
  open_ok = true ∧ snd (encoded encodes (json_chunks doc)) = true ∧
  f' = Some (join (json_chunks doc)).
Proof.
  unfold save_json. cbv zeta. destruct open_ok; [|discriminate].
  destruct (snd (encoded encodes (json_chunks doc))) eqn:E; [|discriminate].
  intros H.
  assert (f' = disk (run_ops (dump_ops (fst (encoded encodes (json_chunks doc))))
                       (closed f))) as -> by congruence.
  rewrite (encoded_all encodes _ E), run_dump_ops. auto.
Qed.

Lemma save_json_raise (open_ok : bool) (doc : pyval) (f f' : option string)
    (e : exn) :
  save_json json_chunks encodes open_ok doc f = (Raise e, f') →
  (open_ok = false ∧ e = OSError ∧ f' = f) ∨
  (open_ok = true ∧ e = UnicodeEncodeError ∧
   snd (encoded encodes (json_chunks doc)) = false ∧
   f' = Some (join (fst (encoded encodes (json_chunks doc))))).
Proof.
  unfold save_json. cbv zeta. destruct open_ok; [|intros [= <- <-]; now left].
  destruct (snd (encoded encodes (json_chunks doc))) eqn:E; [discriminate|].
  intros H.
  assert (e = UnicodeEncodeError) as -> by congruence.
  assert (f' = disk (run_ops (dump_ops (fst (encoded encodes (json_chunks doc))))
                       (closed f))) as -> by congruence.
  right. rewrite run_dump_ops. auto.
Qed.

(** How the first half of the apply handler ends. *)
Lemma apply_save_ret (open_ok : bool) (entry : string) (auto_start create_ok : bool)
    (f f' : option string) (m : pyfloat) :
  apply_save str_to_float json_loads json_chunks encodes open_ok entry auto_start
      create_ok f = (Ret m, f') →
  validate_interval str_to_float (PStr entry) = Ret m ∧
  open_ok = true ∧
  ∃ cfg : list (string * pyval),
    fst (load_config str_to_float json_loads json_chunks create_ok f) = Ret cfg ∧
    let saved :=
      dict_set (dict_set cfg "interval_min" (PFloat m))
        "auto_start" (PBool auto_start) in
    snd (encoded encodes (json_chunks (PDict saved))) = true ∧
    f' = Some (join (json_chunks (PDict saved))).
Proof.
  unfold apply_save, apply_save_with.
  destruct (validate_interval str_to_float (PStr entry)) as [m0|e0] eqn:Ev;
    [|discriminate].
  destruct (load_config str_to_float json_loads json_chunks create_ok f)
    as [[cfg|e1] f1] eqn:El; [|discriminate].
  destruct (save_json json_chunks encodes open_ok _ f1) as [[[]|e2] f2] eqn:Es;
    [|discriminate].
  intros [= <- <-]. destruct (save_json_ret _ _ _ _ Es) as (Ho & He & ->).
  split; [reflexivity|]. split; [exact Ho|]. exists cfg. simpl. auto.
Qed.

(** X6. What the apply handler saves is what the next [load_config]
    returns: when the file can be opened for writing, the encoder accepts
    every chunk of the new text and the decoder reads the saved text back
    as the saved record, the save succeeds, and loading the file
    afterwards gives exactly that record, with the applied interval and
    the auto-start choice. *)
Theorem saved_settings_load_back (entry : string)
    (auto_start create_ok again : bool) (f : option string)
    (new_min : pyfloat) (cfg : list (string * pyval)) :
  validate_interval str_to_float (PStr entry) = Ret new_min →
  fst (load_config str_to_float json_loads json_chunks create_ok f) = Ret cfg →
  let saved :=
    dict_set (dict_set cfg "interval_min" (PFloat new_min))
      "auto_start" (PBool auto_start) in
  snd (encoded encodes (json_chunks (PDict saved))) = true →
  json_loads (join (json_chunks (PDict saved))) = Ret (PDict saved) →
  ∃ f' : option string,
    apply_save str_to_float json_loads json_chunks encodes true entry auto_start
        create_ok f = (Ret new_min, f') ∧
    f' = Some (join (json_chunks (PDict saved))) ∧
    load_config str_to_float json_loads json_chunks again f' = (Ret saved, f') ∧
    dict_lookup saved "interval_min" = Some (PFloat new_min) ∧
    dict_lookup saved "auto_start" = Some (PBool auto_start).
Proof.
  intros Hv Hl saved Henc Hrt.
  destruct (load_config str_to_float json_loads json_chunks create_ok f)
    as [r0 f1] eqn:El. simpl in Hl. subst r0.
  assert (Hi : dict_lookup saved "interval_min" = Some (PFloat new_min)).
  { unfold saved. rewrite dict_lookup_set_ne by discriminate.
    apply dict_lookup_set_eq. }
  assert (Hk : ∀ k, In k (map fst default_config) → is_Some (dict_lookup saved k)).
  { intros k Hin. unfold saved. do 2 apply dict_lookup_set_Some.
    exact (load_config_fields create_ok f f1 cfg k El Hin). }
  exists (Some (join (json_chunks (PDict saved)))).
  split; [|split; [reflexivity|split; [|split]]].
  - unfold apply_save, apply_save_with. rewrite Hv, El. fold saved.
    now rewrite (save_json_ok json_chunks encodes (PDict saved) f1 Henc).
  - unfold load_config. rewrite Hrt. unfold dict_get at 1. rewrite Hi.
    rewrite (validate_interval_again str_to_float (PStr entry) new_min Hv).
    unfold fill_defaults.
    rewrite (dict_set_same saved "interval_min" _ Hi).
    rewrite (dict_set_get_same saved "icon_path") by (apply Hk; simpl; auto 10).
    rewrite (dict_set_get_same saved "log_file") by (apply Hk; simpl; auto 10).
    rewrite (dict_set_get_same saved "auto_start") by (apply Hk; simpl; auto 10).
    rewrite (dict_set_get_same saved "minimize_to_tray") by (apply Hk; simpl; auto 10).
    reflexivity.
  - exact Hi.
  - unfold saved. apply dict_lookup_set_eq.
Qed.

End Load.

(** X4 at a sample: the file holds a JSON array. *)
Lemma load_config_raises_witness :
  Some "[]" = Some "[]" ∧
  ∃ text : string,
    Some "[]" = Some text ∧
    ((sample_loads text = Raise AttributeError ∧
      is_ValueError AttributeError = false) ∨
     (∃ doc : pyval,
        sample_loads text = Ret doc ∧ (∀ d, doc ≠ PDict d) ∧
        AttributeError = AttributeError) ∨
     (∃ d : list (string * pyval),
        sample_loads text = Ret (PDict d) ∧ AttributeError = OverflowError ∧
        py_float (λ _, None) (dict_get d "interval_min" (PInt 60))
          = Raise OverflowError)).
Proof.
  apply (load_config_raises (λ _, None) sample_loads sample_chunks true
           (Some "[]") (Some "[]") AttributeError).
  reflexivity.
Defined.

(** X5 at a sample: the file holds the empty object. *)
Lemma load_config_record_witness :
  (∀ k : string,
     In k (map fst default_config) →
     is_Some (dict_lookup (fill_defaults [] (Fin 60)) k)) ∧
  (∃ (minutes : pyval) (secs : Q),
     dict_lookup (fill_defaults [] (Fin 60)) "interval_min" = Some minutes ∧
     interval_seconds minutes = Some secs ∧
     (6 <= secs)%Q ∧ (secs <= 86400)%Q) ∧
  (∀ text : string, Some "{}" = Some text → Some "{}" = Some "{}").
Proof.
  apply (load_config_record (λ _, None) sample_loads sample_chunks true
           (Some "{}") (Some "{}") (fill_defaults [] (Fin 60))).
  reflexivity.
Defined.

(** X6 at a sample: the first run, the entry holds 5 and auto-start is
    ticked. *)
Lemma saved_settings_load_back_witness :
  let saved :=
    dict_set (dict_set default_config "interval_min" (PFloat (Fin 5)))
      "auto_start" (PBool true) in
  ∃ f' : option string,
    apply_save sample_str_to_float SampleCodec.loads SampleCodec.chunks
        (λ _, true) true "5" true true None = (Ret (Fin 5), f') ∧
    f' = Some (join (SampleCodec.chunks (PDict saved))) ∧
    load_config sample_str_to_float SampleCodec.loads SampleCodec.chunks true f'
      = (Ret saved, f') ∧
    dict_lookup saved "interval_min" = Some (PFloat (Fin 5)) ∧
    dict_lookup saved "auto_start" = Some (PBool true).
Proof.
  apply (saved_settings_load_back sample_str_to_float SampleCodec.loads
           SampleCodec.chunks (λ _, true) "5" true true true None
           (Fin 5) default_config);
    reflexivity.
Defined.

End SettingsMore.

(** ** The registrar and the icon *)

Module AutoStartMore.
Import Py AutoStart.

Lemma status_true (r : registry) :
  get_auto_start_status r = true ↔
  ∃ values, run_key r = Some values ∧ is_Some (values !! APP_NAME).
Proof.
  unfold get_auto_start_status. destruct (run_key r) as [values|].
  - rewrite bool_decide_eq_true. split; [eauto|]. now intros (? & [= <-] & H).
  - split; [discriminate | now intros (? & ? & _)].
Qed.

Lemma set_auto_start_cases (enable : bool) (exe_path : string)
    (icon : result string) (info_ok : bool) (r : registry) :
  let ok := fst (set_auto_start enable exe_path icon info_ok r) in
  let r' := snd (set_auto_start enable exe_path icon info_ok r) in
  (ok = true ↔
   is_Some (run_key r) ∧ (enable = true → ∃ icon_path, icon = Ret icon_path)) ∧
  (ok = true →
   get_auto_start_status r' = enable ∧
   ∃ values values', run_key r = Some values ∧ run_key r' = Some values' ∧
     ∀ k : string, k ≠ APP_NAME → values' !! k = values !! k) ∧
  (ok = false → r' = r).
Proof.
  unfold set_auto_start. destruct (run_key r) as [values|] eqn:Ek; simpl.
  2:{ split; [|split]; try discriminate; try reflexivity.
      split; [discriminate | now intros [[? [=]] _]]. }
  destruct enable.
  - destruct icon as [icon_path|e]; simpl.
    + split; [|split]; try discriminate.
      * split; [intros _; split; eauto | reflexivity].
      * intros _. split.
        { unfold get_auto_start_status. simpl. rewrite lookup_insert_eq.
          apply bool_decide_eq_true. eauto. }
        exists values, (<[APP_NAME := quoted exe_path]> values).
        repeat split; try reflexivity.
        intros k Hk. now rewrite lookup_insert_ne.
    + split; [|split]; try discriminate; try reflexivity.
      split; [discriminate|]. intros [_ H]. destruct (H eq_refl) as [? [=]].
  - destruct (values !! APP_NAME) as [v|] eqn:Ev; simpl.
    + split; [|split]; try discriminate.
      * split; [intros _; split; [eauto | discriminate] | reflexivity].
      * intros _. split.
        { unfold get_auto_start_status. simpl. rewrite lookup_delete_eq.
          apply bool_decide_eq_false. now intros [? [=]]. }
        exists values, (delete APP_NAME values). repeat split; try reflexivity.
        intros k Hk. now rewrite lookup_delete_ne.
    + split; [|split]; try discriminate.
      * split; [intros _; split; [eauto | discriminate] | reflexivity].
      * intros _. split.
        { unfold get_auto_start_status. rewrite Ek.
          apply bool_decide_eq_false. intros [x Hx].
          discriminate (eq_trans (eq_sym Hx) Ev). }
        exists values, values. rewrite Ek. repeat split; reflexivity.
Qed.

(** X7. [set_auto_start] succeeds exactly when the Run key can be opened
    and, for enabling, an icon was found. After a success the status read
    back is the one asked for, and no other value of the Run key has
    changed; after a failure the registry is as it was. *)
Theorem set_auto_start_outcome (enable : bool) (exe_path : string)
    (icon : result string) (info_ok : bool) (r : registry) :
  let ok := fst (set_auto_start enable exe_path icon info_ok r) in
  let r' := snd (set_auto_start enable exe_path icon info_ok r) in
  (ok = true ↔
   is_Some (run_key r) ∧ (enable = true → ∃ icon_path, icon = Ret icon_path)) ∧
  (ok = true →
   get_auto_start_status r' = enable ∧
   ∃ values values', run_key r = Some values ∧ run_key r' = Some values' ∧
     ∀ k : string, k ≠ APP_NAME → values' !! k = values !! k) ∧
  (ok = false → r' = r).
Proof. apply set_auto_start_cases. Qed.

Lemma info_values_again (icon_path : string) (old : option (gmap string string)) :
  info_values icon_path (Some (info_values icon_path old))
  = info_values icon_path old.
Proof.
  unfold info_values. simpl. apply map_eq. intros k.
  rewrite !lookup_insert. repeat case_decide; reflexivity.
Qed.

(** X8. [set_auto_start] is idempotent: asking for the same state a
    second time gives the same answer and the same registry as asking
    once. *)
Theorem set_auto_start_twice (enable : bool) (exe_path : string)
    (icon : result string) (info_ok : bool) (r : registry) :
  set_auto_start enable exe_path icon info_ok
    (snd (set_auto_start enable exe_path icon info_ok r))
  = set_auto_start enable exe_path icon info_ok r.
Proof.
  unfold set_auto_start at 2 3. destruct (run_key r) as [values|] eqn:Ek; simpl.
  2:{ unfold set_auto_start. now rewrite Ek. }
  destruct enable.
  - destruct icon as [icon_path|e]; simpl.
    + unfold set_auto_start. simpl. rewrite insert_insert_eq.
      destruct info_ok; [|reflexivity]. now rewrite info_values_again.
    + unfold set_auto_start. now rewrite Ek.
  - destruct (values !! APP_NAME) as [v|] eqn:Ev; simpl.
    + unfold set_auto_start. simpl. rewrite lookup_delete_eq.
      reflexivity.
    + unfold set_auto_start. now rewrite Ek, Ev.
Qed.

(** X9. With a Run key that opens and an icon that is found, the
    [toggle_auto_start] command succeeds and flips the status, and a second
    toggle brings the status back; without an icon, a registration can
    still be removed but not added. *)
Theorem toggle_flips (exe_path : string) (icon : result string) (info_ok : bool)
    (r : registry) :
  is_Some (run_key r) →
  let t1 := App.toggle_auto_start exe_path icon info_ok r in
  let t2 := App.toggle_auto_start exe_path icon info_ok (snd t1) in
  ((∃ icon_path, icon = Ret icon_path) →
   fst t1 = true ∧
   get_auto_start_status (snd t1) = negb (get_auto_start_status r) ∧
   fst t2 = true ∧
   get_auto_start_status (snd t2) = get_auto_start_status r) ∧
  ((∀ icon_path, icon ≠ Ret icon_path) →
   fst t1 = get_auto_start_status r ∧
   get_auto_start_status (snd t1) = false).
Proof.
  intros [values Hk]. unfold App.toggle_auto_start.
  assert (Hset : ∀ b r0,
            is_Some (run_key r0) → (b = true → ∃ p, icon = Ret p) →
            fst (set_auto_start b exe_path icon info_ok r0) = true ∧
            get_auto_start_status (snd (set_auto_start b exe_path icon info_ok r0)) = b ∧
            is_Some (run_key (snd (set_auto_start b exe_path icon info_ok r0)))).
  { intros b r0 Hr0 Hi.
    destruct (set_auto_start_cases b exe_path icon info_ok r0) as (Hok & Hpost & _).
    simpl in Hok, Hpost.
    assert (H1 : fst (set_auto_start b exe_path icon info_ok r0) = true)
      by (apply Hok; auto).
    destruct (Hpost H1) as (Hs & v0 & v1 & _ & Hv1 & _).
    repeat split; try assumption. rewrite Hv1. eauto. }
  split.
  - intros Hicon. simpl.
    destruct (Hset (negb (get_auto_start_status r)) r) as (H1 & H2 & H3); eauto.
    destruct (Hset (negb (get_auto_start_status
                            (snd (set_auto_start (negb (get_auto_start_status r))
                                    exe_path icon info_ok r))))
                (snd (set_auto_start (negb (get_auto_start_status r))
                        exe_path icon info_ok r))) as (H4 & H5 & _); eauto.
    repeat split; try assumption.
    rewrite H5, H2. apply negb_involutive.
  - intros Hno. simpl. destruct (get_auto_start_status r) eqn:Es; simpl.
    + destruct (Hset false r) as (H1 & H2 & _); eauto. discriminate.
    + destruct (set_auto_start_cases true exe_path icon info_ok r) as (Hok & _ & Hfail).
      simpl in Hok, Hfail.
      destruct (fst (set_auto_start true exe_path icon info_ok r)) eqn:Ef.
      * destruct Hok as [Hok _]. destruct (Hok eq_refl) as [_ Hi].
        destruct (Hi eq_refl) as [p Hp]. now destruct (Hno p).
      * rewrite (Hfail eq_refl). auto.
Qed.

(** X9 at a sample: an empty Run key and an icon. *)
Lemma toggle_flips_witness :
  let r := {| run_key := Some ∅; info_key := None |} in
  let t1 := App.toggle_auto_start "stretch_reminder.py" (Ret "icon.ico") true r in
  let t2 := App.toggle_auto_start "stretch_reminder.py" (Ret "icon.ico") true (snd t1) in
  fst t1 = true ∧
  get_auto_start_status (snd t1) = negb (get_auto_start_status r) ∧
  fst t2 = true ∧
  get_auto_start_status (snd t2) = get_auto_start_status r.
Proof.
  destruct (toggle_flips "stretch_reminder.py" (Ret "icon.ico") true
              {| run_key := Some ∅; info_key := None |}) as [H _].
  - simpl. eauto.
  - apply H. eauto.
Defined.

End AutoStartMore.

Module IconMore.
Import Py Icon.

Section Paths.

Variable json_loads : string → result pyval.
Variable is_absolute : string → bool.
Variable joinpath : string → string → string.
Variable resolve : string → string.
Variable path_exists : string → bool.
Variable app_path : string.

Lemma fallback_icon_ret (p : string) :
  fallback_icon joinpath path_exists app_path = Ret p →
  path_exists p = true ∧ p = default_icon joinpath app_path.
Proof.
  unfold fallback_icon.
  destruct (path_exists (default_icon joinpath app_path)) eqn:E; [|discriminate].
  intros [= <-]. auto.
Qed.


(** X10. A path returned by [get_icon_abs_path] exists: it is the icon
    named in the config of the working directory, made absolute from the
    program's directory and resolved, or else the [icon.ico] next to the
    program. *)
Theorem icon_path_found (cwd_config : option string) (p : string) :
  get_icon_abs_path json_loads is_absolute joinpath resolve path_exists app_path
    cwd_config = Ret p →
  path_exists p = true ∧
  (p = default_icon joinpath app_path ∨
   ∃ (text : string) (cfg : list (string * pyval)) (name : string),
     cwd_config = Some text ∧ json_loads text = Ret (PDict cfg) ∧
     dict_get cfg "icon_path" (PStr "icon.ico") = PStr name ∧
     p = resolve (if is_absolute name then name else joinpath app_path name)).
Proof.
  unfold get_icon_abs_path. destruct cwd_config as [text|].
  2:{ intros H. destruct (fallback_icon_ret p H). auto. }
  destruct (json_loads text) as [doc|e] eqn:Ed.
  2:{ destruct (caught e); [|discriminate].
      intros H. destruct (fallback_icon_ret p H). auto. }
  destruct doc as [|b|z|g|s|l|cfg]; try discriminate.
  destruct (dict_get cfg "icon_path" (PStr "icon.ico")) as [|b|z|g|name|l|d] eqn:Eg;
    try discriminate.
  destruct (path_exists (resolve _)) eqn:Ee.
  - intros [= <-]. split; [exact Ee|]. right. exists text, cfg, name. auto.
  - intros H. destruct (fallback_icon_ret p H). auto.
Qed.


End Paths.

(** X10 at a sample: no config in the working directory, the icon is
    next to the program. *)
Lemma icon_path_found_witness :
  (λ p : string, String.eqb p "/app/icon.ico") "/app/icon.ico" = true ∧
  ("/app/icon.ico"
   = default_icon (λ a b, String.append a (String.append "/" b)) "/app" ∨
   ∃ (text : string) (cfg : list (string * pyval)) (name : string),
     None = Some text ∧ Settings.sample_loads text = Ret (PDict cfg) ∧
     dict_get cfg "icon_path" (PStr "icon.ico") = PStr name ∧
     "/app/icon.ico"
     = id (if String.prefix "/" name then name
           else String.append "/app" (String.append "/" name))).
Proof.
  apply (icon_path_found Settings.sample_loads (String.prefix "/")
           (λ a b, String.append a (String.append "/" b)) id
           (λ p, String.eqb p "/app/icon.ico") "/app" None "/app/icon.ico").
  reflexivity.
Defined.


End IconMore.

(** ** The scheduler *)

Module SchedulerMore.
Import Scheduler Basics SchedulerProps.

(** X12. In every execution from startup, with or without resets, exit
    and races, the notifications sent plus the callbacks about to send one
    are as many as the timers that have fired: no timer fires without a
    notification and none notifies twice. *)
Theorem notifications_match_firings (now interval : Q) (evs : list event)
    (st : state) :
  run (start now interval) evs = Some st →
  sent st + count is_cbsend (threads st) = count is_fired (timers st).
Proof.
  intros Hr. apply (run_sent_fired evs (start now interval) st); [reflexivity|].
  exact Hr.
Qed.

(** X12 at a sample: the reset race. *)
Lemma notifications_match_firings_witness :
  ∃ st : state,
    run (start 0 3600) race_reset = Some st ∧
    sent st + count is_cbsend (threads st) = count is_fired (timers st).
Proof.
  destruct (run (start 0 3600) race_reset) as [st|] eqn:E;
    [|vm_compute in E; discriminate].
  exists st. split; [reflexivity|].
  exact (notifications_match_firings 0 3600 race_reset st E).
Defined.

Lemma fire_spent (i : nat) (st st1 : state) : fire i st = Some st1 → spent i st1.
Proof.
  unfold fire. destruct (timers st !! i) as [t|] eqn:Ei; [|discriminate].
  destruct (is_armed t && due t (clock st)); [|discriminate].
  intros [= <-]. unfold spent. simpl.
  rewrite list_lookup_insert_eq by (eapply lookup_lt_Some; eauto). eauto.
Qed.

Lemma shutdown_spent (i : nat) (st : state) :
  timer st = Some i → is_Some (timers st !! i) → spent i (shutdown st).
Proof.
  intros Hh [t Hi]. unfold spent, shutdown. simpl.
  rewrite Hh. unfold cancel_handle. rewrite (at_handle_here cancel i _ t Hi).
  rewrite list_lookup_insert_eq by (eapply lookup_lt_Some; eauto).
  exists (cancel t). split; [reflexivity | apply cancel_spent].
Qed.

(** X13. A timer fires at most once: after it has fired, it cannot fire
    again in any continuation; and the timer held in [timer] at the exit
    never fires afterwards. *)
Theorem timer_fires_once (i : nat) (st : state) :
  (∀ (st1 : state) (evs : list event) (st2 : state),
     fire i st = Some st1 → run st1 evs = Some st2 → fire i st2 = None) ∧
  (∀ (evs : list event) (st2 : state),
     timer st = Some i → is_Some (timers st !! i) →
     run (shutdown st) evs = Some st2 → fire i st2 = None).
Proof.
  split.
  - intros st1 evs st2 Hf Hr. apply spent_never_fires.
    exact (run_spent i evs st1 st2 (fire_spent i st st1 Hf) Hr).
  - intros evs st2 Hh Hi Hr. apply spent_never_fires.
    exact (run_spent i evs _ st2 (shutdown_spent i st Hh Hi) Hr).
Qed.

(** X13 at a sample: the first timer, an hour after startup, and what
    follows in the reset race. *)
Lemma timer_fires_once_witness :
  ∃ st1 sf st2 : state,
    run (start 0 3600) [Tick 3600] = Some st1 ∧
    fire 0 st1 = Some sf ∧
    run sf (tail (tail race_reset)) = Some st2 ∧
    fire 0 st2 = None.
Proof.
  destruct (run (start 0 3600) [Tick 3600]) as [st1|] eqn:E1;
    [|vm_compute in E1; discriminate].
  exists st1.
  destruct (fire 0 st1) as [sf|] eqn:Ef;
    [|vm_compute in E1; injection E1 as <-; vm_compute in Ef; discriminate].
  exists sf.
  destruct (run sf (tail (tail race_reset))) as [st2|] eqn:E2;
    [|vm_compute in E1; injection E1 as <-; vm_compute in Ef; injection Ef as <-;
      vm_compute in E2; discriminate].
  exists st2. split; [reflexivity|]. split; [reflexivity|].
  split; [reflexivity|].
  destruct (timer_fires_once 0 st1) as [H _].
  exact (H sf (tail (tail race_reset)) st2 Ef E2).
Defined.

(** *** What an execution never undoes *)


Lemma keeps_trans (t1 t2 t3 : timer_obj) : keeps t1 t2 → keeps t2 t3 → keeps t1 t3.
Proof. intros [H1 H2] [H3 H4]. split; [congruence | auto]. Qed.









(** *** The countdown follows the timer in [timer] *)
















(** When the threads of two resets overlap inside
    [schedule_notification], [next_run_time] can come from one call and
    the timer in [timer] from the other: here the countdown shows ten
    minutes while the timer in [timer] fires after five, and the timer of
    the second call is never started. *)
Lemma overlap_countdown_disagrees :
  ∃ (st : state) (t : timer_obj) (at_ n : Q),
    run (start 0 3600) race_countdown = Some st ∧
    live_count st = 0 ∧
    timer st = Some 2 ∧
    timers st !! 2 = Some t ∧
    is_armed t = true ∧
    fire_at t = Some at_ ∧
    next_run_time st = Some n ∧
    (at_ < n)%Q ∧
    armed_count st = 1 ∧
    (∃ t1 : timer_obj,
       timers st !! 1 = Some t1 ∧ status t1 = Created ∧ fire_at t1 = None).
Proof.
  destruct (run (start 0 3600) race_countdown) as [st|] eqn:E;
    [|vm_compute in E; discriminate].
  exists st. vm_compute in E. injection E as <-.
  eexists _, _, _. repeat split. eexists. repeat split.
Qed.

(** *** One period of normal operation *)

#[local] Ltac norm_state :=
  cbn [set_threads clock timers timer interval_sec next_run_time running sent
       threads run step].

(** X16. One period: an outstanding timer comes due and fires, its
    callback sends one notification, the delayed thread sleeps 0.1 s and,
    [running] being set, schedules the next timer with the current
    interval, without interruption. The next notification is then due one
    interval after the re-arm, that is 0.1 s plus one interval after the
    firing, not one interval after the previous due time. *)
Theorem rearm_period (st : state) (i : nat) (t : timer_obj) (at_ d : Q) :
  running st = true →
  timers st !! i = Some t →
  is_armed t = true →
  fire_at t = Some at_ →
  (0 <= d)%Q →
  (at_ <= clock st + d)%Q →
  let k := length (threads st) in
  let next := (clock st + d + (1 # 10) + interval_sec st)%Q in
  ∃ st' : state,
    run st ([ Tick d; Fire i; Run k; Run k; Tick (1 # 10); Run (S k); Run (S k) ]
            ++ schedule_steps (S k)) = Some st' ∧
    sent st' = S (sent st) ∧
    next_run_time st' = Some next ∧
    timer st' = Some (length (timers st)) ∧
    timers st'
      = <[i := {| interval := interval t; fire_at := Some at_; status := Fired |}]>
          (timers st)
        ++ [ {| interval := interval_sec st; fire_at := Some next;
                status := Armed |} ] ∧
    threads st' = threads st ++ [Done; Done].
Proof.
  intros Hrun Hi Ha Hf Hd Hdue k next.
  apply Qle_bool_iff in Hd. apply Qle_bool_iff in Hdue.
  eexists. split.
  { rewrite run_app. cbn [run step]. rewrite Hd. unfold fire. norm_state.
    rewrite Hi, Ha. unfold due. rewrite Hf, Hdue. cbn [andb].
    unfold run_thread at 1. norm_state. unfold k. rewrite lookup_snoc, insert_snoc.
    unfold run_thread at 1. norm_state. rewrite lookup_snoc, Hrun, insert_snoc.
    norm_state. rewrite <- app_assoc. cbn [app].
    change (Qle_bool 0 (1 # 10)) with true. cbn iota.
    unfold run_thread at 1. norm_state.
    rewrite lookup_snoc2, Qle_bool_refl, insert_snoc2. norm_state.
    unfold run_thread at 1. norm_state.
    rewrite lookup_snoc2, ?Hrun, insert_snoc2. norm_state.
    rewrite run_schedule_steps by (cbn; apply lookup_snoc2).
    reflexivity. }
  cbn. rewrite insert_snoc2.
  split; [reflexivity|]. split; [reflexivity|].
  split; [now rewrite length_insert|]. split; reflexivity.
Qed.

(** X16 at a sample: the first hour after startup. *)
Lemma rearm_period_witness :
  ∃ st' : state,
    run (start 0 3600)
        ([ Tick 3600; Fire 0; Run 0; Run 0; Tick (1 # 10); Run 1; Run 1 ]
         ++ schedule_steps 1)
      = Some st' ∧
    sent st' = 1 ∧
    next_run_time st' = Some (0 + 3600 + (1 # 10) + 3600)%Q ∧
    timer st' = Some 1 ∧
    timers st'
      = [ {| interval := 3600; fire_at := Some (0 + 3600)%Q; status := Fired |};
          {| interval := 3600; fire_at := Some (0 + 3600 + (1 # 10) + 3600)%Q;
             status := Armed |} ] ∧
    threads st' = [Done; Done].
Proof.
  apply (rearm_period (start 0 3600) 0
           {| interval := 3600; fire_at := Some (0 + 3600)%Q; status := Armed |}
           (0 + 3600) 3600).
  - reflexivity.
  - reflexivity.
  - reflexivity.
  - reflexivity.
  - discriminate.
  - discriminate.
Defined.

(** X26. A reset in a dialog that found its icon. The timer held in
    [timer] is outstanding; the user applies [new_min] minutes,
    [T2 = new_min * 60] seconds; the thread of the reset runs [d >= 0]
    seconds later, at time [now], without interruption. Then
    [interval_sec] is [T2], [next_run_time] is [now + T2], the new timer
    is held in [timer] and fires exactly when [T2] seconds have passed
    since [now], the old timer never fires, and when the old timer was the
    only outstanding one, so is the new one. *)
Theorem reset_replaces_timer (st : state) (i : nat) (t : timer_obj) (new_min d : Q) :
  timer st = Some i →
  timers st !! i = Some t →
  is_armed t = true →
  (0 <= d)%Q →
  let T2 := (new_min * 60)%Q in
  let now := (clock st + d)%Q in
  let new := length (timers st) in
  ∃ st' : state,
    run st (Apply new_min true :: Tick d :: new_timer_steps (length (threads st)))
      = Some st' ∧
    interval_sec st' = T2 ∧
    next_run_time st' = Some (now + T2)%Q ∧
    timer st' = Some new ∧
    timers st'
      = <[i := cancel t]> (timers st)
        ++ [ {| interval := T2; fire_at := Some (now + T2)%Q; status := Armed |} ] ∧
    (∀ e : Q, (0 <= e)%Q →
       (is_Some (run st' [Tick e; Fire new]) ↔ (T2 <= e)%Q)) ∧
    (∀ (evs : list event) (st'' : state),
       run st' evs = Some st'' → fire i st'' = None) ∧
    ((∀ (j : nat) (tj : timer_obj),
        timers st !! j = Some tj → is_armed tj = true → j = i) →
     ∀ (j : nat) (tj : timer_obj),
       timers st' !! j = Some tj → is_armed tj = true → j = new).
Proof. apply reset_rearms. Qed.

(** X26 at a sample: the hourly timer of startup, reset to 5 minutes at
    once. *)
Lemma reset_replaces_timer_witness :
  ∃ st' : state,
    run (start 0 3600) (Apply 5 true :: Tick 0 :: new_timer_steps 0) = Some st' ∧
    interval_sec st' = (5 * 60)%Q ∧
    next_run_time st' = Some (0 + 0 + 5 * 60)%Q ∧
    timer st' = Some 1 ∧
    timers st'
      = [ {| interval := 3600; fire_at := Some (0 + 3600)%Q; status := Cancelled |};
          {| interval := (5 * 60)%Q; fire_at := Some (0 + 0 + 5 * 60)%Q;
             status := Armed |} ] ∧
    (∀ e : Q, (0 <= e)%Q →
       (is_Some (run st' [Tick e; Fire 1]) ↔ (5 * 60 <= e)%Q)) ∧
    (∀ (evs : list event) (st'' : state),
       run st' evs = Some st'' → fire 0 st'' = None) ∧
    ((∀ (j : nat) (tj : timer_obj),
        timers (start 0 3600) !! j = Some tj → is_armed tj = true → j = 0) →
     ∀ (j : nat) (tj : timer_obj),
       timers st' !! j = Some tj → is_armed tj = true → j = 1).
Proof.
  apply (reset_replaces_timer (start 0 3600) 0
           {| interval := 3600; fire_at := Some (0 + 3600)%Q; status := Armed |} 5 0).
  - reflexivity.
  - reflexivity.
  - reflexivity.
  - discriminate.
Defined.

End SchedulerMore.

(** ** The countdown label *)

Module CountdownMore.
Import Countdown CountdownProps.

(** X17. When the label is updated, the minutes and the seconds shown
    add up to the whole seconds left, the seconds are below 60, nothing is
    negative, and the value shown never grows as time passes. *)
Theorem countdown_label (next now later : Q) (m s : Z) :
  update_countdown (Some next) now = Some (m, s) →
  (0 <= m)%Z ∧ (0 <= s < 60)%Z ∧
  (m * 60 + s)%Z = remaining next now ∧
  ((now <= later)%Q → (remaining next later <= remaining next now)%Z).
Proof.
  unfold update_countdown. destruct (Qeq_bool next 0); [discriminate|].
  intros [= <- <-].
  assert (H0 : (0 <= remaining next now)%Z).
  { rewrite remaining_floor. change 0%Z with (Qfloor 0).
    apply Qfloor_resp_le, Q.le_max_l. }
  split; [apply Z.div_pos; lia|].
  split; [apply Z.mod_pos_bound; lia|].
  split.
  - rewrite Z.mul_comm. symmetry. apply Z.div_mod. lia.
  - intros Hle. rewrite !remaining_floor. apply Qfloor_resp_le.
    apply Q.max_le_compat_l. apply Qplus_le_r. apply Qopp_le_compat. exact Hle.
Qed.

(** X17 at a sample: 125.5 seconds before the due time. *)
Lemma countdown_label_witness :
  (0 <= 2)%Z ∧ (0 <= 5 < 60)%Z ∧
  (2 * 60 + 5)%Z = remaining (251 # 2) 0 ∧
  ((0 <= 1)%Q → (remaining (251 # 2) 1 <= remaining (251 # 2) 0)%Z).
Proof.
  apply (countdown_label (251 # 2) 0 1 2 5). reflexivity.
Defined.

End CountdownMore.

(** ** The dialog and the command queue *)

Module LoopMore.
Import Dialog Tray Loop Basics.




Lemma orphan_step (g : gui) (ev : dialog_event) (j : nat) :
  winfo_exists g j = true → settings_window g ≠ Some j →
  winfo_exists (dialog_step g ev) j = true ∧
  settings_window (dialog_step g ev) ≠ Some j.
Proof.
  intros He Hs.
  assert (Hlook : windows g !! j = Some true).
  { unfold winfo_exists in He. destruct (windows g !! j) as [[]|]; congruence. }
  assert (Hlt : j < length (windows g)) by (eapply lookup_lt_Some; eauto).
  assert (Hbuild : ∀ b g0, windows g0 = windows g → settings_window g0 = None →
            winfo_exists (build_window b g0) j = true ∧
            settings_window (build_window b g0) ≠ Some j).
  { intros b g0 Hw _. unfold winfo_exists. destruct b; simpl; rewrite Hw.
    - rewrite lookup_app_l by exact Hlt. rewrite Hlook.
      split; [reflexivity|]. intros [= H]. lia.
    - rewrite Hlook. split; [reflexivity | discriminate].
    - rewrite lookup_app_l by exact Hlt. rewrite Hlook.
      split; [reflexivity | discriminate]. }
  assert (Hbuild' : ∀ b, settings_window g ≠ Some j →
            winfo_exists (build_window b g) j = true ∧
            settings_window (build_window b g) ≠ Some j).
  { intros b _. unfold winfo_exists. destruct b; simpl.
    - rewrite lookup_app_l by exact Hlt. rewrite Hlook.
      split; [reflexivity|]. intros [= H]. lia.
    - rewrite Hlook. split; [reflexivity | discriminate].
    - rewrite lookup_app_l by exact Hlt. rewrite Hlook.
      split; [reflexivity | discriminate]. }
  destruct ev as [b|]; simpl.
  - unfold create_settings_window.
    destruct (settings_window g) as [w|] eqn:Ew; [|now apply Hbuild'].
    destruct (winfo_exists g w) eqn:Eex; [|now apply Hbuild'].
    unfold lift_and_focus. rewrite Eex. unfold winfo_exists. simpl.
    rewrite Hlook, Ew. auto.
  - destruct (settings_window g) as [w|] eqn:Ew; [|rewrite Ew; auto].
    unfold winfo_exists, on_closing. simpl.
    rewrite list_lookup_insert_ne by congruence. rewrite Hlook.
    split; [reflexivity | discriminate].
Qed.

(** X19. A window whose build failed after [tk.Toplevel] is forgotten
    but not destroyed: from then on no [open_settings] command and no
    closing of the window the program refers to destroys it or refers to
    it again, and the next successful [open_settings] puts a second
    window beside it. *)
Theorem failed_build_leaks_window (g : gui) (evs : list dialog_event) :
  settings_window g = None →
  let orphan := length (windows g) in
  let g1 := dialog_step g (Open LayoutFails) in
  let g' := fold_left dialog_step evs g1 in
  existing g1 = S (existing g) ∧
  settings_window g1 = None ∧
  winfo_exists g' orphan = true ∧
  settings_window g' ≠ Some orphan ∧
  existing (dialog_step g1 (Open BuildOk)) = S (S (existing g)).
Proof.
  intros Hs orphan g1 g'.
  assert (Hg1 : g1 = {| windows := windows g ++ [true]; settings_window := None;
                        focused := focused g |}).
  { unfold g1. simpl. unfold create_settings_window. now rewrite Hs. }
  assert (He1 : winfo_exists g1 orphan = true).
  { rewrite Hg1. unfold winfo_exists, orphan. simpl.
    rewrite lookup_app_r by lia. now rewrite Nat.sub_diag. }
  assert (Hs1 : settings_window g1 ≠ Some orphan) by (rewrite Hg1; discriminate).
  assert (H : ∀ evs0 g0, winfo_exists g0 orphan = true →
            settings_window g0 ≠ Some orphan →
            winfo_exists (fold_left dialog_step evs0 g0) orphan = true ∧
            settings_window (fold_left dialog_step evs0 g0) ≠ Some orphan).
  { induction evs0 as [|ev evs0 IH]; intros g0 He0 Hs0; simpl; [auto|].
    destruct (orphan_step g0 ev orphan He0 Hs0) as [He' Hs']. now apply IH. }
  destruct (H evs g1 He1 Hs1) as [He' Hs'].
  split; [|split; [|split; [|split]]]; try assumption.
  - rewrite Hg1. unfold existing. simpl. rewrite count_app. simpl. lia.
  - now rewrite Hg1.
  - rewrite Hg1. simpl. unfold create_settings_window, existing. simpl.
    rewrite !count_app. simpl. lia.
Qed.

(** X19 at a sample: the very first build fails, then the user opens
    the dialog, closes it and opens it again. *)
Lemma failed_build_leaks_window_witness :
  let g1 := dialog_step no_window (Open LayoutFails) in
  let g' := fold_left dialog_step [Open BuildOk; Close; Open BuildOk] g1 in
  existing g1 = 1 ∧
  settings_window g1 = None ∧
  winfo_exists g' 0 = true ∧
  settings_window g' ≠ Some 0 ∧
  existing (dialog_step g1 (Open BuildOk)) = 2.
Proof.
  apply (failed_build_leaks_window no_window [Open BuildOk; Close; Open BuildOk]).
  reflexivity.
Defined.

(** *** The queue *)

Lemma step_fifo (l : loop) (p consumed : list string) (ev : Tray.event) :
  p = consumed ++ command_queue l →
  taken l = map dispatch consumed →
  ∃ consumed' : list string,
    produce p ev = consumed' ++ command_queue (step l ev) ∧
    taken (step l ev) = map dispatch consumed'.
Proof.
  intros -> Ht. destruct ev as [i| |]; simpl.
  - destruct i as [|[|i]]; simpl.
    + exists consumed. unfold on_open_settings. now rewrite app_assoc.
    + exists consumed. unfold on_exit. now rewrite app_assoc.
    + exists consumed. auto.
  - exists consumed. unfold tray_failed. now rewrite app_assoc.
  - destruct (running l); [|exists consumed; auto].
    destruct (command_queue l) as [|c q] eqn:Eq.
    + exists consumed. rewrite Eq. auto.
    + exists (consumed ++ [c]). simpl. split.
      * now rewrite <- app_assoc.
      * now rewrite Ht, map_app.
Qed.

(** X20. The command loop is first in, first out, and handles each
    command at most once: at every moment the commands posted so far are
    the ones already handled, in the order they were handled, followed by
    the ones still in the queue. *)
Theorem commands_fifo (evs : list Tray.event) :
  ∃ consumed : list string,
    posted evs = consumed ++ command_queue (fold_left step evs start) ∧
    taken (fold_left step evs start) = map dispatch consumed.
Proof.
  unfold posted.
  assert (H : ∀ l p consumed,
            p = consumed ++ command_queue l → taken l = map dispatch consumed →
            ∃ consumed',
              fold_left produce evs p
              = consumed' ++ command_queue (fold_left step evs l) ∧
              taken (fold_left step evs l) = map dispatch consumed').
  { induction evs as [|ev evs IH]; intros l p consumed Hp Ht; simpl; [eauto|].
    destruct (step_fifo l p consumed ev Hp Ht) as (c' & Hp' & Ht').
    exact (IH _ _ c' Hp' Ht'). }
  apply (H start [] []); reflexivity.
Qed.

Lemma step_exit_last (l : loop) (ev : Tray.event) :
  (running l = true ∧ Forall (λ b, b ≠ BrExit) (taken l) ∨
   running l = false ∧
   ∃ pre, taken l = pre ++ [BrExit] ∧ Forall (λ b, b ≠ BrExit) pre) →
  running (step l ev) = true ∧ Forall (λ b, b ≠ BrExit) (taken (step l ev)) ∨
  running (step l ev) = false ∧
  ∃ pre, taken (step l ev) = pre ++ [BrExit] ∧ Forall (λ b, b ≠ BrExit) pre.
Proof.
  intros H. destruct ev as [i| |]; simpl.
  - destruct (menu !! i); exact H.
  - exact H.
  - destruct H as [[Hr Ht]|[Hr Ht]]; rewrite Hr; [|right; auto].
    destruct (command_queue l) as [|c q]; [left; auto|]. simpl.
    destruct (dispatch c) eqn:Ed.
    + right. split; [reflexivity|]. exists (taken l). auto.
    + left. split; [reflexivity|]. apply Forall_app. split; [exact Ht|].
      constructor; [discriminate | constructor].
    + left. split; [reflexivity|]. apply Forall_app. split; [exact Ht|].
      constructor; [discriminate | constructor].
    + left. split; [reflexivity|]. apply Forall_app. split; [exact Ht|].
      constructor; [discriminate | constructor].
Qed.

(** X21. The exit command ends the loop: [running] is cleared exactly
    when the exit branch has been taken, it is taken at most once, and
    nothing is handled after it, whatever is still posted. *)
Theorem exit_is_last (evs : list Tray.event) :
  let l := fold_left step evs start in
  (running l = true ∧ Forall (λ b, b ≠ BrExit) (taken l)) ∨
  (running l = false ∧
   ∃ pre, taken l = pre ++ [BrExit] ∧ Forall (λ b, b ≠ BrExit) pre).
Proof.
  assert (H : ∀ l0,
            (running l0 = true ∧ Forall (λ b, b ≠ BrExit) (taken l0) ∨
             running l0 = false ∧
             ∃ pre, taken l0 = pre ++ [BrExit] ∧ Forall (λ b, b ≠ BrExit) pre) →
            let l := fold_left step evs l0 in
            running l = true ∧ Forall (λ b, b ≠ BrExit) (taken l) ∨
            running l = false ∧
            ∃ pre, taken l = pre ++ [BrExit] ∧ Forall (λ b, b ≠ BrExit) pre).
  { induction evs as [|ev evs IH]; intros l0 H0; simpl; [exact H0|].
    apply IH. exact (step_exit_last l0 ev H0). }
  apply H. left. split; [reflexivity | constructor].
Qed.

End LoopMore.

(** ** Applying settings, and startup on any config *)

Module AppMore.
Import Py Settings App Basics SettingsProps.

(** A state is its three components. *)
Lemma app_eta (a : app) : {| file := file a; reg := reg a; sched := sched a |} = a.
Proof. destruct a; reflexivity. Qed.

Section Apply.

Variable str_to_float : string → option pyfloat.
Variable json_loads : string → result pyval.
Variable json_chunks : pyval → list string.
Variable encodes : string → bool.

Lemma validate_entry_exn (entry : string) (e : exn) :
  validate_interval str_to_float (PStr entry) = Raise e → e = ValueError.
Proof.
  unfold validate_interval. simpl. destruct (str_to_float entry) as [f|].
  - destruct (float_le f 0); [now intros [= <-]|].
    destruct (float_gt f day_minutes); [now intros [= <-] | discriminate].
  - simpl. now intros [= <-].
Qed.

Lemma load_config_exn (create_ok : bool) (f f' : option string) (e : exn) :
  load_config str_to_float json_loads json_chunks create_ok f = (Raise e, f') →
  f' = f ∧ is_ValueError e = false.
Proof.
  unfold load_config. destruct f as [text|]; [|destruct create_ok; discriminate].
  destruct (json_loads text) as [[| | | | | |config]|e0];
    try discriminate; try (intros [= <- <-]; auto).
  - destruct (validate_interval str_to_float _) as [i|e'] eqn:Ev; [discriminate|].
    destruct (is_ValueError e') eqn:Ee; [discriminate|].
    intros [= <- <-]. auto.
  - destruct (is_ValueError e0) eqn:Ee; [discriminate|]. intros [= <- <-]. auto.
Qed.

Lemma load_config_seconds (create_ok : bool) (f f' : option string)
    (cfg : list (string * pyval)) :
  load_config str_to_float json_loads json_chunks create_ok f = (Ret cfg, f') →
  ∃ (minutes : pyval) (secs : Q),
    dict_lookup cfg "interval_min" = Some minutes ∧
    interval_seconds minutes = Some secs ∧
    (6 <= secs)%Q ∧ (secs <= 86400)%Q.
Proof.
  intros H.
  destruct (SettingsMore.load_config_cases str_to_float json_loads json_chunks
              create_ok f f' cfg H) as [->|(config & i & Hv & ->)].
  - exists (PInt 60), 3600%Q. repeat split; discriminate.
  - destruct (validate_interval_range str_to_float _ i Hv) as (v & -> & Hlo & Hhi).
    exists (PFloat (Fin v)), (v * 60)%Q.
    split; [apply fill_defaults_interval|]. split; [reflexivity|].
    apply SettingsMore.seconds_bounds; assumption.
Qed.

(** Where the first half of the handler can fail: at the validation, at
    the reload, at the open, or at a write. *)
Lemma apply_save_raise (open_ok : bool) (entry : string)
    (auto_start create_ok : bool) (f f' : option string) (e : exn) :
  apply_save str_to_float json_loads json_chunks encodes open_ok entry auto_start
      create_ok f = (Raise e, f') →
  (validate_interval str_to_float (PStr entry) = Raise ValueError ∧
   e = ValueError ∧ f' = f) ∨
  ∃ m : pyfloat,
    validate_interval str_to_float (PStr entry) = Ret m ∧
    ((fst (load_config str_to_float json_loads json_chunks create_ok f) = Raise e ∧
      is_ValueError e = false ∧ f' = f) ∨
     ∃ (cfg : list (string * pyval)) (f1 : option string),
       load_config str_to_float json_loads json_chunks create_ok f = (Ret cfg, f1) ∧
       let written :=
         encoded encodes
           (json_chunks
              (PDict (dict_set (dict_set cfg "interval_min" (PFloat m))
                        "auto_start" (PBool auto_start)))) in
       ((open_ok = false ∧ e = OSError ∧ f' = f1) ∨
        (open_ok = true ∧ e = UnicodeEncodeError ∧ snd written = false ∧
         f' = Some (join (fst written))))).
Proof.
  unfold apply_save, apply_save_with.
  destruct (validate_interval str_to_float (PStr entry)) as [m|e0] eqn:Ev.
  2:{ intros [= <- <-]. left.
      rewrite (validate_entry_exn entry e0 Ev) in *. auto. }
  destruct (load_config str_to_float json_loads json_chunks create_ok f)
    as [[cfg|e1] f1] eqn:El.
  2:{ intros [= <- <-]. destruct (load_config_exn create_ok f f1 e1 El) as [-> He].
      right. exists m. split; [reflexivity|]. left. auto. }
  destruct (save_json json_chunks encodes open_ok _ f1) as [[[]|e2] f2] eqn:Es;
    [discriminate|].
  intros [= <- <-]. right. exists m. split; [reflexivity|]. right.
  exists cfg, f1. split; [reflexivity|]. cbv zeta.
  destruct (SettingsMore.save_json_raise json_chunks encodes _ _ _ _ _ Es)
    as [(-> & -> & ->)|(-> & -> & He & ->)]; auto.
Qed.

(** X22. When [apply_settings] does not succeed, the registry and the
    scheduler are as they were, and the handler has ended in one of four
    ways: [validate_interval] rejected the text of the entry ([ValueError]
    branch: the error is shown and the entry restored; the file is
    untouched); reading the config raised (general error branch; the file
    is untouched); the file could not be opened for writing (general error
    branch; the file is as [load_config] left it); or the encoder refused
    a chunk of the new text ([UnicodeEncodeError], a [ValueError], so the
    [ValueError] branch again, although the entry was valid), and then the
    file has been truncated and holds only the chunks written before. *)
Theorem apply_settings_failure (entry : string)
    (auto_start create_ok open_ok : bool) (exe_path : string)
    (icon : result string) (info_ok : bool) (dialog_icon : result string)
    (a a' : app) (o : outcome) :
  apply_settings str_to_float json_loads json_chunks encodes entry auto_start
    create_ok open_ok exe_path icon info_ok dialog_icon a = (o, a') →
  (∀ m, o ≠ Applied m) →
  reg a' = reg a ∧
  sched a' = sched a ∧
  ((validate_interval str_to_float (PStr entry) = Raise ValueError ∧
    o = Rejected ∧ file a' = file a) ∨
   ∃ m : pyfloat,
     validate_interval str_to_float (PStr entry) = Ret m ∧
     ((∃ e : exn,
         fst (load_config str_to_float json_loads json_chunks create_ok (file a))
           = Raise e ∧
         o = Failed e ∧ file a' = file a) ∨
      ∃ (cfg : list (string * pyval)) (f1 : option string),
        load_config str_to_float json_loads json_chunks create_ok (file a)
          = (Ret cfg, f1) ∧
        let written :=
          encoded encodes
            (json_chunks
               (PDict (dict_set (dict_set cfg "interval_min" (PFloat m))
                         "auto_start" (PBool auto_start)))) in
        ((open_ok = false ∧ o = Failed OSError ∧ file a' = f1) ∨
         (open_ok = true ∧ o = Rejected ∧ snd written = false ∧
          file a' = Some (join (fst written)))))).
Proof.
  unfold apply_settings.
  destruct (apply_save str_to_float json_loads json_chunks encodes open_ok entry
              auto_start create_ok (file a)) as [[m|e] f'] eqn:Ea.
  { intros [= <- _] Hn. now destruct (Hn m). }
  intros [= <- <-] _. simpl. split; [reflexivity|]. split; [reflexivity|].
  destruct (apply_save_raise open_ok entry auto_start create_ok (file a) f' e Ea)
    as [(Hv & -> & ->)|(m & Hv & [(Hl & He & ->)|(cfg & f1 & Hl & Hw)])].
  - left. auto.
  - right. exists m. split; [exact Hv|]. left. exists e. rewrite He. auto.
  - right. exists m. split; [exact Hv|]. right. exists cfg, f1.
    split; [exact Hl|]. cbv zeta in *.
    destruct Hw as [(-> & -> & ->)|(-> & -> & Hs & ->)]; auto.
Qed.

(** X23. When [apply_settings] succeeds, the accepted interval is
    between 0.1 and 1440 minutes; the file could be opened and every chunk
    written, and it holds the reloaded record with that interval and the
    auto-start choice; the registry is what [set_auto_start] left; and the
    scheduler has been reset: the timer in [timer] is cancelled,
    [interval_sec] is sixty times the interval, between 6 and 86400
    seconds, and one more thread is about to run [start_new_timer]. *)
Theorem apply_settings_success (entry : string)
    (auto_start create_ok open_ok : bool) (exe_path : string)
    (icon : result string) (info_ok : bool) (dialog_icon : result string)
    (a a' : app) (new_min : pyfloat) :
  apply_settings str_to_float json_loads json_chunks encodes entry auto_start
    create_ok open_ok exe_path icon info_ok dialog_icon a = (Applied new_min, a') →
  ∃ (q : Q) (cfg : list (string * pyval)),
    new_min = Fin q ∧ (1 # 10 <= q)%Q ∧ (q <= 1440)%Q ∧
    validate_interval str_to_float (PStr entry) = Ret (Fin q) ∧
    fst (load_config str_to_float json_loads json_chunks create_ok (file a))
      = Ret cfg ∧
    open_ok = true ∧
    file a'
      = Some (join (json_chunks
                (PDict (dict_set (dict_set cfg "interval_min" (PFloat (Fin q)))
                          "auto_start" (PBool auto_start))))) ∧
    reg a' = snd (AutoStart.set_auto_start auto_start exe_path icon info_ok (reg a)) ∧
    sched a' = Scheduler.apply_reset q (icon_bound dialog_icon) (sched a) ∧
    Scheduler.interval_sec (sched a') = (q * 60)%Q ∧
    (6 <= q * 60)%Q ∧ (q * 60 <= 86400)%Q ∧
    Scheduler.threads (sched a')
      = Scheduler.threads (sched a)
        ++ [Scheduler.NewTimer (icon_bound dialog_icon)].
Proof.
  unfold apply_settings.
  destruct (apply_save str_to_float json_loads json_chunks encodes open_ok entry
              auto_start create_ok (file a)) as [[m|e] f'] eqn:Ea.
  2:{ destruct (is_ValueError e); discriminate. }
  intros [= <- <-].
  destruct (SettingsMore.apply_save_ret str_to_float json_loads json_chunks encodes
              open_ok entry auto_start create_ok (file a) f' m Ea)
    as (Hv & Ho & cfg & Hl & _ & ->).
  destruct (validate_interval_range str_to_float _ m Hv) as (q & -> & Hlo & Hhi).
  destruct (SettingsMore.seconds_bounds q Hlo Hhi) as [H6 H8].
  exists q, cfg. simpl. repeat split; assumption.
Qed.

(** X24. The result of [set_auto_start] is not looked at: when
    [apply_settings] succeeds although the registration failed, the
    registry is unchanged while the saved record carries the auto-start
    choice of the dialog, so the config and the registry can disagree. *)
Theorem apply_ignores_registry_failure (entry : string)
    (auto_start create_ok open_ok : bool) (exe_path : string)
    (icon : result string) (info_ok : bool) (dialog_icon : result string)
    (a a' : app) (new_min : pyfloat) :
  apply_settings str_to_float json_loads json_chunks encodes entry auto_start
    create_ok open_ok exe_path icon info_ok dialog_icon a = (Applied new_min, a') →
  fst (AutoStart.set_auto_start auto_start exe_path icon info_ok (reg a)) = false →
  reg a' = reg a ∧
  ∃ saved : list (string * pyval),
    file a' = Some (join (json_chunks (PDict saved))) ∧
    dict_lookup saved "auto_start" = Some (PBool auto_start).
Proof.
  unfold apply_settings.
  destruct (apply_save str_to_float json_loads json_chunks encodes open_ok entry
              auto_start create_ok (file a)) as [[m|e] f'] eqn:Ea.
  2:{ destruct (is_ValueError e); discriminate. }
  intros [= <- <-] Hf. simpl.
  destruct (AutoStartMore.set_auto_start_cases auto_start exe_path icon info_ok (reg a))
    as (_ & _ & Hfail).
  split; [exact (Hfail Hf)|].
  destruct (SettingsMore.apply_save_ret str_to_float json_loads json_chunks encodes
              open_ok entry auto_start create_ok (file a) f' m Ea)
    as (_ & _ & cfg & _ & _ & ->).
  eexists. split; [reflexivity|]. apply dict_lookup_set_eq.
Qed.

(** X25. [main] on any config file: it fails (exit code 1) exactly when
    [load_config] raises or no icon is found; otherwise exactly one timer
    is outstanding, due [interval_sec] after the current time, with
    [interval_sec] between 6 and 86400 seconds, [next_run_time] set to that
    due time and [running] set. *)
Theorem main_outcome (create_ok : bool) (icon : result string) (now : Q)
    (f : option string) :
  (∀ (st : Scheduler.state) (f' : option string),
     Startup.main str_to_float json_loads json_chunks create_ok icon now f
       = (Ret st, f') →
     ∃ secs : Q,
       (6 <= secs)%Q ∧ (secs <= 86400)%Q ∧
       st = Scheduler.start now secs ∧
       Scheduler.timers st
         = [ {| Scheduler.interval := secs;
                Scheduler.fire_at := Some (now + secs)%Q;
                Scheduler.status := Scheduler.Armed |} ] ∧
       Scheduler.next_run_time st = Some (now + secs)%Q ∧
       Scheduler.running st = true ∧
       ∃ icon_path, icon = Ret icon_path) ∧
  (∀ (e : exn) (f' : option string),
     Startup.main str_to_float json_loads json_chunks create_ok icon now f
       = (Raise e, f') →
     fst (load_config str_to_float json_loads json_chunks create_ok f) = Raise e ∨
     icon = Raise e) ∧
  ((∃ e, fst (load_config str_to_float json_loads json_chunks create_ok f) = Raise e) ∨
   (∃ e, icon = Raise e) →
   ∃ e, fst (Startup.main str_to_float json_loads json_chunks create_ok icon now f)
        = Raise e).
Proof.
  unfold Startup.main.
  destruct (load_config str_to_float json_loads json_chunks create_ok f)
    as [[cfg|e0] f1] eqn:El.
  - destruct (load_config_seconds create_ok f f1 cfg El)
      as (minutes & secs & Hm & Hs & H6 & H8).
    rewrite Hm, Hs. destruct icon as [p|e1]; simpl.
    + split; [|split].
      * intros st f' [= <- <-]. exists secs. repeat split; eauto.
      * discriminate.
      * intros [[e He]|[e He]]; discriminate.
    + split; [|split].
      * discriminate.
      * intros e f' [= <- <-]. auto.
      * intros _. eauto.
  - simpl. split; [|split].
    + discriminate.
    + intros e f' [= <- <-]. auto.
    + intros _. eauto.
Qed.

End Apply.

(** X22 at a sample: the entry holds a word. *)
Lemma apply_settings_failure_witness :
  let a := {| file := None;
              reg := {| AutoStart.run_key := Some ∅; AutoStart.info_key := None |};
              sched := Scheduler.start 0 3600 |} in
  reg a = reg a ∧
  sched a = sched a ∧
  ((validate_interval sample_str_to_float (PStr "soon") = Raise ValueError ∧
    Rejected = Rejected ∧ file a = file a) ∨
   ∃ m : pyfloat,
     validate_interval sample_str_to_float (PStr "soon") = Ret m ∧
     ((∃ e : exn,
         fst (load_config sample_str_to_float SampleCodec.loads SampleCodec.chunks
                true (file a)) = Raise e ∧
         Rejected = Failed e ∧ file a = file a) ∨
      ∃ (cfg : list (string * pyval)) (f1 : option string),
        load_config sample_str_to_float SampleCodec.loads SampleCodec.chunks true
            (file a) = (Ret cfg, f1) ∧
        let written :=
          encoded (λ _, true)
            (SampleCodec.chunks
               (PDict (dict_set (dict_set cfg "interval_min" (PFloat m))
                         "auto_start" (PBool true)))) in
        ((true = false ∧ Rejected = Failed OSError ∧ file a = f1) ∨
         (true = true ∧ Rejected = Rejected ∧ snd written = false ∧
          file a = Some (join (fst written)))))).
Proof.
  apply (apply_settings_failure sample_str_to_float SampleCodec.loads
           SampleCodec.chunks (λ _, true) "soon" true true true
           "stretch_reminder.py" (Ret "icon.ico") true (Ret "icon.ico")
           {| file := None;
              reg := {| AutoStart.run_key := Some ∅; AutoStart.info_key := None |};
              sched := Scheduler.start 0 3600 |}).
  - reflexivity.
  - discriminate.
Defined.

(** X23 at a sample: the entry holds 5, on a first run. *)
Lemma apply_settings_success_witness :
  let a := {| file := None;
              reg := {| AutoStart.run_key := Some ∅; AutoStart.info_key := None |};
              sched := Scheduler.start 0 3600 |} in
  let a' := snd (apply_settings sample_str_to_float SampleCodec.loads
                   SampleCodec.chunks (λ _, true) "5" true true true
                   "stretch_reminder.py" (Ret "icon.ico") true (Ret "icon.ico") a) in
  ∃ (q : Q) (cfg : list (string * pyval)),
    Fin 5 = Fin q ∧ (1 # 10 <= q)%Q ∧ (q <= 1440)%Q ∧
    validate_interval sample_str_to_float (PStr "5") = Ret (Fin q) ∧
    fst (load_config sample_str_to_float SampleCodec.loads SampleCodec.chunks
           true (file a)) = Ret cfg ∧
    true = true ∧
    file a'
      = Some (join (SampleCodec.chunks
                (PDict (dict_set (dict_set cfg "interval_min" (PFloat (Fin q)))
                          "auto_start" (PBool true))))) ∧
    reg a' = snd (AutoStart.set_auto_start true "stretch_reminder.py"
                    (Ret "icon.ico") true (reg a)) ∧
    sched a' = Scheduler.apply_reset q (icon_bound (Ret "icon.ico")) (sched a) ∧
    Scheduler.interval_sec (sched a') = (q * 60)%Q ∧
    (6 <= q * 60)%Q ∧ (q * 60 <= 86400)%Q ∧
    Scheduler.threads (sched a')
      = Scheduler.threads (sched a)
        ++ [Scheduler.NewTimer (icon_bound (Ret "icon.ico"))].
Proof.
  apply (apply_settings_success sample_str_to_float SampleCodec.loads
           SampleCodec.chunks (λ _, true) "5" true true true
           "stretch_reminder.py" (Ret "icon.ico") true (Ret "icon.ico")
           {| file := None;
              reg := {| AutoStart.run_key := Some ∅; AutoStart.info_key := None |};
              sched := Scheduler.start 0 3600 |}).
  reflexivity.
Defined.

(** X24 at a sample: the Run key cannot be opened. *)
Lemma apply_ignores_registry_failure_witness :
  let a := {| file := None;
              reg := {| AutoStart.run_key := None; AutoStart.info_key := None |};
              sched := Scheduler.start 0 3600 |} in
  let a' := snd (apply_settings sample_str_to_float SampleCodec.loads
                   SampleCodec.chunks (λ _, true) "5" true true true
                   "stretch_reminder.py" (Ret "icon.ico") true (Ret "icon.ico") a) in
  reg a' = reg a ∧
  ∃ saved : list (string * pyval),
    file a' = Some (join (SampleCodec.chunks (PDict saved))) ∧
    dict_lookup saved "auto_start" = Some (PBool true).
Proof.
  apply (apply_ignores_registry_failure sample_str_to_float SampleCodec.loads
           SampleCodec.chunks (λ _, true) "5" true true true
           "stretch_reminder.py" (Ret "icon.ico") true (Ret "icon.ico")
           {| file := None;
              reg := {| AutoStart.run_key := None; AutoStart.info_key := None |};
              sched := Scheduler.start 0 3600 |} _ (Fin 5));
    reflexivity.
Defined.

End AppMore.
